(** * Weighted random item sampler: a shallow embedding and its properties

    The development follows [src/weighted-random-item-sampler.ts]:
    the class [WeightedRandomItemSampler<T>] with its constructor
    (validation and prefix-sum preprocessing), the private binary search
    [_findCorrespondingRangeIndex] and the public method [sample].

    Numbers.  A JavaScript [number] is modelled by the type [number] below:
    NaN, the two infinities and the finite values, the finite values being
    exact rationals.  Comparisons follow IEEE 754 / ECMAScript (every
    comparison with NaN is false).  Arithmetic on finite values is exact:
    the rounding, the overflow and the underflow of binary64 and the sign
    of zero are not modelled.  The properties below therefore use of the
    sum and of the product only what rounding to nearest keeps: adding a
    positive weight to a sum that is not negative gives a sum that is not
    smaller, [0 + w] is [w], and NaN and the infinities propagate as in
    IEEE 754.  In particular nothing is stated on strict growth of the
    sums: in binary64 [1e16 + 1] is [1e16]. *)

From Stdlib Require Import ZArith QArith Qcanon Lia Bool.
From stdpp Require Import base list numbers strings.
From Equations Require Import Equations.

Local Open Scope Z_scope.

(** ** JavaScript numbers *)

Inductive number : Type :=
| NaN
| NegInf
| Fin (q : Qc)
| PosInf.

Definition zero : number := Fin (Q2Qc 0).
Definition one : number := Fin (Q2Qc 1).

(** A literal such as [1.5] or [0.999], given as a fraction. *)
Definition lit (q : Q) : number := Fin (Q2Qc q).

Definition Qc_ltb (a b : Qc) : bool :=
  match (a ?= b)%Qc with Lt => true | _ => false end.

Definition Qc_leb (a b : Qc) : bool :=
  match (a ?= b)%Qc with Gt => false | _ => true end.

(** [x < y] of ECMAScript. *)
Definition num_lt (x y : number) : bool :=
  match x, y with
  | NaN, _ | _, NaN => false
  | _, NegInf => false
  | PosInf, _ => false
  | NegInf, _ => true
  | Fin _, PosInf => true
  | Fin a, Fin b => Qc_ltb a b
  end.

(** [x <= y] of ECMAScript. *)
Definition num_le (x y : number) : bool :=
  match x, y with
  | NaN, _ | _, NaN => false
  | NegInf, _ => true
  | _, PosInf => true
  | PosInf, _ => false
  | Fin _, NegInf => false
  | Fin a, Fin b => Qc_leb a b
  end.

(** [x + y] of ECMAScript on NaN and the infinities; on finite values the
    sum is exact, where binary64 rounds it. *)
Definition num_add (x y : number) : number :=
  match x, y with
  | NaN, _ | _, NaN => NaN
  | PosInf, NegInf | NegInf, PosInf => NaN
  | PosInf, _ | _, PosInf => PosInf
  | NegInf, _ | _, NegInf => NegInf
  | Fin a, Fin b => Fin (a + b)
  end.

(** The infinity whose sign is the sign of the finite factor [a];
    zero times infinity is NaN. *)
Definition scaled_inf (positive_inf : bool) (a : Qc) : number :=
  match (a ?= Q2Qc 0)%Qc with
  | Eq => NaN
  | Gt => if positive_inf then PosInf else NegInf
  | Lt => if positive_inf then NegInf else PosInf
  end.

(** [x * y] of ECMAScript on NaN and the infinities; on finite values the
    product is exact, where binary64 rounds it. *)
Definition num_mul (x y : number) : number :=
  match x, y with
  | NaN, _ | _, NaN => NaN
  | PosInf, PosInf | NegInf, NegInf => PosInf
  | PosInf, NegInf | NegInf, PosInf => NegInf
  | PosInf, Fin a | Fin a, PosInf => scaled_inf true a
  | NegInf, Fin a | Fin a, NegInf => scaled_inf false a
  | Fin a, Fin b => Fin (a * b)
  end.

(** [Number.isFinite]. *)
Definition is_finite (x : number) : bool :=
  match x with Fin _ => true | _ => false end.

(** Reading an array cell may give [undefined] ([None]); in a comparison
    [undefined] is converted to NaN. *)
Definition ToNumber (v : option number) : number :=
  match v with Some x => x | None => NaN end.

(** [arr[i]] for an integer index: [undefined] outside of the array. *)
Definition array_get {A : Type} (arr : list A) (i : Z) : option A :=
  if i <? 0 then None else arr !! Z.to_nat i.

(** ** Errors thrown by the constructor

    The source throws [new Error(message)]; the three messages are told
    apart by a constructor each, and the values interpolated into a message
    are the fields: both lengths for the mismatch, the weight for a
    non-positive weight. *)

Inductive Error : Type :=
| ZeroItemsError
| LengthMismatchError (itemsLength weightsLength : nat)
| NonPositiveWeightError (weight : number).

(** Outcome of code that may throw. *)
Inductive completion (A : Type) : Type :=
| Throw (e : Error)
| Return (a : A).
Arguments Throw {A} e.
Arguments Return {A} a.

#[global] Instance completion_bind : MBind completion :=
  fun A B k c =>
    match c with
    | Throw e => Throw e
    | Return a => k a
    end.

Definition guard_throw (failed : bool) (e : Error) : completion unit :=
  if failed then Throw e else Return tt.

(** ** The class *)

Record WeightedRandomItemSampler (T : Type) : Type := {
  _items : list T;
  _ascRangeEnds : list number;
  _lastRangeEnd : number
}.
Arguments _items {T} _.
Arguments _ascRangeEnds {T} _.
Arguments _lastRangeEnd {T} _.

(** The [for (const weight of respectiveWeights)] loop of the constructor,
    over the two locals [ascRangeEnds] and [weightsPrefixSum]. *)
Fixpoint weights_loop (respectiveWeights : list number)
    (ascRangeEnds : list number) (weightsPrefixSum : number)
  : completion (list number * number) :=
  match respectiveWeights with
  | [] => Return (ascRangeEnds, weightsPrefixSum)
  | weight :: rest =>
      _ ← guard_throw (num_le weight zero) (NonPositiveWeightError weight);
      let weightsPrefixSum := num_add weightsPrefixSum weight in
      weights_loop rest (ascRangeEnds ++ [weightsPrefixSum]) weightsPrefixSum
  end.

Definition constructor {T : Type} (items : list T)
    (respectiveWeights : list number)
  : completion (WeightedRandomItemSampler T) :=
  _ ← guard_throw (length items =? 0)%nat ZeroItemsError;
  _ ← guard_throw (negb (length items =? length respectiveWeights)%nat)
        (LengthMismatchError (length items) (length respectiveWeights));
  '(ascRangeEnds, weightsPrefixSum) ← weights_loop respectiveWeights [] zero;
  Return {| _items := items;
            _ascRangeEnds := ascRangeEnds;
            _lastRangeEnd := weightsPrefixSum |}.

(** ** The binary search *)

(** The three locals of [_findCorrespondingRangeIndex]. *)
Record SearchState : Type := {
  rangeIndex : Z;
  left : Z;
  right : Z
}.

(** The loop condition [left <= right]. *)
Definition loop_cond (st : SearchState) : bool := left st <=? right st.

(** The test [pointInRange < this._ascRangeEnds[mid]]. *)
Definition below (ascRangeEnds : list number) (pointInRange : number)
    (mid : Z) : bool :=
  num_lt pointInRange (ToNumber (array_get ascRangeEnds mid)).

(** The loop body; [Math.floor((left + right) / 2)] is [Z.div], which
    rounds down. *)
Definition loop_body (ascRangeEnds : list number) (pointInRange : number)
    (st : SearchState) : SearchState :=
  let mid := (left st + right st) / 2 in
  if below ascRangeEnds pointInRange mid
  then {| rangeIndex := mid; left := left st; right := mid - 1 |}
  else {| rangeIndex := rangeIndex st; left := mid + 1; right := right st |}.

(** The number of indices still under consideration. *)
Definition width (st : SearchState) : Z := right st - left st.

(** Case analysis on a value that keeps the equation for the branch. *)
Definition inspect {A : Type} (x : A) : {y : A | x = y} := exist _ x eq_refl.

Definition fuel_of (st : SearchState) : nat := Z.to_nat (width st + 1).

Equations? while_loop (ascRangeEnds : list number) (pointInRange : number)
    (st : SearchState) : SearchState by wf (fuel_of st) lt :=
  while_loop ascRangeEnds pointInRange st with inspect (loop_cond st) := {
    | exist _ true Hcond => while_loop ascRangeEnds pointInRange
                              (loop_body ascRangeEnds pointInRange st)
    | exist _ false _ => st }.
Proof.
  unfold loop_cond in Hcond. apply Z.leb_le in Hcond.
  unfold fuel_of, width, loop_body.
  destruct (below _ _ _); cbn;
    pose proof (Z.div_le_lower_bound (left st + right st) 2 (left st));
    pose proof (Z.div_le_upper_bound (left st + right st) 2 (right st));
    lia.
Qed.

Definition init_state (ascRangeEnds : list number) : SearchState :=
  {| rangeIndex := 0; left := 0; right := Z.of_nat (length ascRangeEnds) - 1 |}.

Definition _findCorrespondingRangeIndex {T : Type}
    (this : WeightedRandomItemSampler T) (pointInRange : number) : Z :=
  rangeIndex (while_loop (_ascRangeEnds this) pointInRange
                (init_state (_ascRangeEnds this))).

(** ** sample

    [Math.random()] is the only input of [sample]: the drawn value is the
    argument [random].  A method is a function from the object to a result
    and the object after the call. *)

Definition method (S A : Type) : Type := S -> A * S.

Definition sample {T : Type} (random : number)
  : method (WeightedRandomItemSampler T) (option T) :=
  fun this =>
    let randomPoint := num_mul random (_lastRangeEnd this) in
    let rangeIndex := _findCorrespondingRangeIndex this randomPoint in
    (array_get (_items this) rangeIndex, this).

(** Successive calls of [sample], one per drawn value. *)
Fixpoint sample_many {T : Type} (randoms : list number)
  : method (WeightedRandomItemSampler T) (list (option T)) :=
  fun this =>
    match randoms with
    | [] => ([], this)
    | random :: rest =>
        let '(item, this) := sample random this in
        let '(others, this) := sample_many rest this in
        (item :: others, this)
    end.

(** ** Vocabulary of the specification *)

(** [k] iterations of the loop body. *)
Definition iterate (ascRangeEnds : list number) (pointInRange : number)
    (k : nat) (st : SearchState) : SearchState :=
  Nat.iter k (loop_body ascRangeEnds pointInRange) st.

(** The running sums pushed by the constructor when no weight is refused,
    starting from the sum [s]. *)
Fixpoint running_sums (s : number) (ws : list number) : list number :=
  match ws with
  | [] => []
  | w :: rest => num_add s w :: running_sums (num_add s w) rest
  end.

(** The cumulative sum as the specification writes it:
    [weight[0] + ... + weight[i]]. *)
Fixpoint weights_sum (ws : list number) (i : nat) : number :=
  match i with
  | O => ToNumber (ws !! O)
  | S j => num_add (weights_sum ws j) (ToNumber (ws !! S j))
  end.

(** Position and value of the first weight that the test [weight <= 0]
    refuses. *)
Fixpoint first_refused (ws : list number) : option (nat * number) :=
  match ws with
  | [] => None
  | w :: rest =>
      if num_le w zero then Some (O, w)
      else '(i, v) ← first_refused rest; Some (S i, v)
  end.

Definition strictly_increasing (l : list number) : Prop :=
  forall (i j : nat) (x y : number),
    (i < j)%nat -> l !! i = Some x -> l !! j = Some y -> num_lt x y = true.

Definition non_decreasing (l : list number) : Prop :=
  forall (i j : nat) (x y : number),
    (i <= j)%nat -> l !! i = Some x -> l !! j = Some y -> num_le x y = true.

(** Inclusive start of the [i]-th range: 0 for the first range, the
    previous range end otherwise. *)
Definition range_start (ascRangeEnds : list number) (i : Z) : number :=
  if i =? 0 then zero else ToNumber (array_get ascRangeEnds (i - 1)).

(** [point] lies in the half-open [i]-th range. *)
Definition in_range (ascRangeEnds : list number) (point : number) (i : Z)
  : bool :=
  num_le (range_start ascRangeEnds i) point && below ascRangeEnds point i.

(** The cell that an iteration of the search reads. *)
Definition mid_index (st : SearchState) : Z := (left st + right st) / 2.

(** ** The later revision of the constructor

    In the later revision of the class the table is allocated at its final
    length, filled with 0, and written by index. *)

Module Prealloc.

(** [arr[i] = x]: below the length the cell is replaced; at or beyond it
    the array grows up to the index, and the cells skipped are holes (they
    read as [undefined], which is NaN in a comparison). *)
Definition array_set (arr : list number) (i : nat) (x : number)
  : list number :=
  if (i <? length arr)%nat then <[i:=x]> arr
  else arr ++ replicate (i - length arr) NaN ++ [x].

(** The [for (const weight of respectiveWeights)] loop over the three
    locals [ascRangeEnds], [currIndex] and [weightsPrefixSum]. *)
Fixpoint weights_loop (respectiveWeights : list number)
    (ascRangeEnds : list number) (currIndex : nat) (weightsPrefixSum : number)
  : completion (list number * number) :=
  match respectiveWeights with
  | [] => Return (ascRangeEnds, weightsPrefixSum)
  | weight :: rest =>
      _ ← guard_throw (num_le weight zero) (NonPositiveWeightError weight);
      let weightsPrefixSum := num_add weightsPrefixSum weight in
      let ascRangeEnds := array_set ascRangeEnds currIndex weightsPrefixSum in
      weights_loop rest ascRangeEnds (S currIndex) weightsPrefixSum
  end.

Definition constructor {T : Type} (items : list T)
    (respectiveWeights : list number)
  : completion (WeightedRandomItemSampler T) :=
  _ ← guard_throw (length items =? 0)%nat ZeroItemsError;
  _ ← guard_throw (negb (length items =? length respectiveWeights)%nat)
        (LengthMismatchError (length items) (length respectiveWeights));
  '(ascRangeEnds, weightsPrefixSum) ←
    weights_loop respectiveWeights (replicate (length items) zero) 0 zero;
  Return {| _items := items;
            _ascRangeEnds := ascRangeEnds;
            _lastRangeEnd := weightsPrefixSum |}.

End Prealloc.

(** ** The use case of the README: a trainer that draws training samples

    The data of a training sample is left open in the README; it is the
    type parameter [D]. *)

Module ModelTrainerExample.

Record TrainingSampleMetadata : Type := {
  importance : number
}.

Record TrainingSample (D : Type) : Type := {
  data : D;
  metadata : TrainingSampleMetadata
}.
Arguments data {D} _.
Arguments metadata {D} _.

Record ModelTrainer (D : Type) : Type := {
  _trainingSampler : WeightedRandomItemSampler (TrainingSample D)
}.
Arguments _trainingSampler {D} _.

Definition new_ModelTrainer {D : Type} (samples : list (TrainingSample D))
  : completion (ModelTrainer D) :=
  sampler ← constructor samples
              ((fun sample => importance (metadata sample)) <$> samples);
  Return {| _trainingSampler := sampler |}.

Definition selectTrainingSample {D : Type} (random : number)
  : method (ModelTrainer D) (option (TrainingSample D)) :=
  fun this =>
    let '(item, sampler) := sample random (_trainingSampler this) in
    (item, {| _trainingSampler := sampler |}).

End ModelTrainerExample.

(** * Properties *)

(** ** Order and addition on numbers *)

Module NumberFacts.

Lemma Qc_ltb_lt (a b : Qc) : Qc_ltb a b = true <-> (a < b)%Qc.
Proof.
  unfold Qc_ltb. rewrite Qclt_alt. destruct (a ?= b)%Qc; split; congruence.
Qed.

Lemma Qc_leb_le (a b : Qc) : Qc_leb a b = true <-> (a <= b)%Qc.
Proof.
  unfold Qc_leb. rewrite Qcle_alt. destruct (a ?= b)%Qc; split; congruence.
Qed.

Lemma Qc_ltb_nlt (a b : Qc) : Qc_ltb a b = false <-> (b <= a)%Qc.
Proof.
  rewrite <- not_true_iff_false, Qc_ltb_lt. split.
  - apply Qcnot_lt_le.
  - apply Qcle_not_lt.
Qed.

Lemma Qc_leb_nle (a b : Qc) : Qc_leb a b = false <-> (b < a)%Qc.
Proof.
  rewrite <- not_true_iff_false, Qc_leb_le. split.
  - apply Qcnot_le_lt.
  - apply Qclt_not_le.
Qed.

(** Case analysis on every number in sight, with the comparisons of
    rationals turned into propositions. *)
Ltac num_cases :=
  repeat match goal with x : number |- _ => destruct x end;
  cbn in *; try congruence; try discriminate;
  rewrite ?Qc_ltb_lt, ?Qc_leb_le, ?Qc_ltb_nlt, ?Qc_leb_nle in *.

Lemma num_le_not_nan (x y : number) :
  num_le x y = true -> x <> NaN /\ y <> NaN.
Proof. intros H. split; intros ->; num_cases; done. Qed.

Lemma num_lt_not_nan (x y : number) :
  num_lt x y = true -> x <> NaN /\ y <> NaN.
Proof. intros H. split; intros ->; num_cases; done. Qed.

Lemma num_le_trans (x y z : number) :
  num_le x y = true -> num_le y z = true -> num_le x z = true.
Proof. intros Hxy Hyz. num_cases; eauto using Qcle_trans. Qed.

Lemma num_lt_le_trans (x y z : number) :
  num_lt x y = true -> num_le y z = true -> num_lt x z = true.
Proof. intros Hxy Hyz. num_cases; eauto using Qclt_le_trans. Qed.

Lemma num_le_lt_trans (x y z : number) :
  num_le x y = true -> num_lt y z = true -> num_lt x z = true.
Proof. intros Hxy Hyz. num_cases; eauto using Qcle_lt_trans. Qed.

Lemma num_le_lt_false (x y : number) :
  num_le x y = true -> num_lt y x = false.
Proof. intros Hxy. num_cases; done. Qed.

Lemma num_lt_le_false (x y : number) :
  num_lt x y = true -> num_le y x = false.
Proof. intros Hxy. num_cases; done. Qed.

Lemma num_lt_le (x y : number) :
  num_lt x y = true -> num_le x y = true.
Proof. intros Hxy. num_cases; by apply Qclt_le_weak. Qed.

Lemma num_add_zero_l (w : number) : num_add zero w = w.
Proof.
  destruct w; cbn; try reflexivity.
  f_equal. apply Qcplus_0_l.
Qed.

Lemma num_add_nan_l (w : number) : num_add NaN w = NaN.
Proof. reflexivity. Qed.

Lemma num_add_nan_r (s : number) : num_add s NaN = NaN.
Proof. by destruct s. Qed.

(** Adding a weight that passed the constructor's test to a non-negative
    sum: unless the weight is NaN, the sum does not decrease. *)
Lemma num_add_weight (s w : number) :
  num_le zero s = true -> num_le w zero = false -> w <> NaN ->
  num_le s (num_add s w) = true /\ num_le zero (num_add s w) = true.
Proof.
  intros Hs Hw Hnan. num_cases; try done.
  assert (q0 <= q0 + q)%Qc as Hle.
  { rewrite <- (Qcplus_0_r q0) at 1. apply Qcplus_le_mono_l.
    by apply Qclt_le_weak. }
  split; [done|]. by apply Qcle_trans with q0.
Qed.

Lemma num_lt_trans (x y z : number) :
  num_lt x y = true -> num_lt y z = true -> num_lt x z = true.
Proof. intros Hxy Hyz. num_cases; eauto using Qclt_trans. Qed.

Lemma num_pos_not_le (w : number) :
  num_lt zero w = true -> num_le w zero = false.
Proof. apply num_lt_le_false. Qed.

Lemma num_le_refl (x : number) : x <> NaN -> num_le x x = true.
Proof. intros Hx. num_cases; apply Qcle_refl. Qed.

Lemma num_add_not_nan (s w : number) :
  num_add s w <> NaN -> s <> NaN /\ w <> NaN.
Proof. intros H. split; intros ->; apply H; [done|by destruct s]. Qed.

Lemma nan_or_not (x : number) : x = NaN \/ x <> NaN.
Proof. destruct x; auto. Qed.

Lemma num_lt_nan_r (x : number) : num_lt x NaN = false.
Proof. by destruct x. Qed.

Lemma num_not_lt_le (x y : number) :
  num_lt x y = false -> x <> NaN -> y <> NaN -> num_le y x = true.
Proof. intros Hxy Hx Hy. num_cases; done. Qed.

End NumberFacts.

(** ** The while loop *)

Module LoopFacts.

Section Loop.
Variable ascRangeEnds : list number.
Variable pointInRange : number.

Lemma while_loop_step (st : SearchState) :
  while_loop ascRangeEnds pointInRange st =
  if loop_cond st
  then while_loop ascRangeEnds pointInRange
         (loop_body ascRangeEnds pointInRange st)
  else st.
Proof.
  funelim (while_loop ascRangeEnds pointInRange st).
  - by rewrite Hcond.
  - by rewrite e.
Qed.

Lemma mid_bounds (st : SearchState) :
  loop_cond st = true ->
  left st <= (left st + right st) / 2 <= right st.
Proof.
  unfold loop_cond. intros Hc%Z.leb_le.
  pose proof (Z.div_le_lower_bound (left st + right st) 2 (left st)).
  pose proof (Z.div_le_upper_bound (left st + right st) 2 (right st)).
  lia.
Qed.

Lemma body_width (st : SearchState) :
  loop_cond st = true ->
  width (loop_body ascRangeEnds pointInRange st) < width st.
Proof.
  intros Hc. pose proof (mid_bounds st Hc).
  unfold width, loop_body. destruct (below _ _ _); cbn; lia.
Qed.

(** The invariant rule for the loop. *)
Lemma while_loop_invariant (I : SearchState -> Prop) (st : SearchState) :
  I st ->
  (forall s, I s -> loop_cond s = true ->
             I (loop_body ascRangeEnds pointInRange s)) ->
  I (while_loop ascRangeEnds pointInRange st) /\
  loop_cond (while_loop ascRangeEnds pointInRange st) = false.
Proof.
  intros Hst Hbody.
  funelim (while_loop ascRangeEnds pointInRange st).
  - auto.
  - auto.
Qed.

Lemma iterate_succ (k : nat) (st : SearchState) :
  iterate ascRangeEnds pointInRange (S k) st =
  iterate ascRangeEnds pointInRange k (loop_body ascRangeEnds pointInRange st).
Proof. unfold iterate. by rewrite Nat.iter_succ_r. Qed.

(** The loop runs the body a number of times bounded by the width. *)
Lemma while_loop_iterate (st : SearchState) :
  exists k : nat,
    (k <= fuel_of st)%nat /\
    while_loop ascRangeEnds pointInRange st
      = iterate ascRangeEnds pointInRange k st /\
    loop_cond (iterate ascRangeEnds pointInRange k st) = false /\
    forall j : nat, (j < k)%nat ->
      loop_cond (iterate ascRangeEnds pointInRange j st) = true.
Proof.
  funelim (while_loop ascRangeEnds pointInRange st).
  - destruct H as (k & Hk & Heq & Hend & Hbefore).
    exists (S k). rewrite !iterate_succ. repeat split; try done.
    + pose proof (body_width st Hcond) as Hw.
      pose proof (mid_bounds st Hcond).
      unfold fuel_of, width in *. lia.
    + intros [|j] Hj; [exact Hcond|].
      rewrite iterate_succ. apply Hbefore. lia.
  - exists O. repeat split; [lia|done|]. intros j Hj. lia.
Qed.

End Loop.

End LoopFacts.

(** ** The binary search over an arbitrary table *)

Module SearchFacts.
Import LoopFacts.

Section Search.
Context {T : Type}.
Variable this : WeightedRandomItemSampler T.
Variable pointInRange : number.

(** Outside of the array the test reads [undefined] and fails. *)
Lemma below_outside (ascRangeEnds : list number) (i : Z) :
  i < 0 \/ Z.of_nat (length ascRangeEnds) <= i ->
  below ascRangeEnds pointInRange i = false.
Proof.
  intros Hi. unfold below, array_get.
  destruct (Z.ltb_spec i 0) as [|Hi0]; [by destruct pointInRange|].
  rewrite lookup_ge_None_2; [by destruct pointInRange|]. lia.
Qed.

(** When no cell is above the point, the candidate is never replaced. *)
Lemma search_keeps_candidate :
  (forall i, below (_ascRangeEnds this) pointInRange i = false) ->
  _findCorrespondingRangeIndex this pointInRange = 0.
Proof.
  intros Hnone. unfold _findCorrespondingRangeIndex.
  apply (while_loop_invariant (_ascRangeEnds this) pointInRange
           (fun s => rangeIndex s = 0)); [done|].
  intros s Hs _. unfold loop_body. by rewrite Hnone.
Qed.

(** The result is an index of the table. *)
Lemma search_in_bounds :
  0 < Z.of_nat (length (_ascRangeEnds this)) ->
  0 <= _findCorrespondingRangeIndex this pointInRange
    < Z.of_nat (length (_ascRangeEnds this)).
Proof.
  intros Hn. unfold _findCorrespondingRangeIndex.
  set (n := Z.of_nat (length (_ascRangeEnds this))) in *.
  apply (while_loop_invariant (_ascRangeEnds this) pointInRange
           (fun s => 0 <= left s /\ right s < n /\ 0 <= rangeIndex s < n)).
  - unfold init_state; cbn. lia.
  - intros s (Hl & Hr & Hi) Hc. pose proof (mid_bounds s Hc).
    unfold loop_body. destruct (below _ _ _); cbn; lia.
Qed.

(** The test is monotone: the result is the leftmost index that passes. *)
Lemma search_leftmost :
  0 < Z.of_nat (length (_ascRangeEnds this)) ->
  (forall i j, 0 <= i <= j -> j < Z.of_nat (length (_ascRangeEnds this)) ->
     below (_ascRangeEnds this) pointInRange i = true ->
     below (_ascRangeEnds this) pointInRange j = true) ->
  below (_ascRangeEnds this) pointInRange
    (Z.of_nat (length (_ascRangeEnds this)) - 1) = true ->
  0 <= _findCorrespondingRangeIndex this pointInRange
    < Z.of_nat (length (_ascRangeEnds this)) /\
  below (_ascRangeEnds this) pointInRange
    (_findCorrespondingRangeIndex this pointInRange) = true /\
  forall j, 0 <= j < _findCorrespondingRangeIndex this pointInRange ->
    below (_ascRangeEnds this) pointInRange j = false.
Proof.
  unfold _findCorrespondingRangeIndex.
  set (n := Z.of_nat (length (_ascRangeEnds this))).
  set (P := below (_ascRangeEnds this) pointInRange).
  intros Hn Hmono Hlast.
  destruct (while_loop_invariant (_ascRangeEnds this) pointInRange
    (fun s => 0 <= left s /\ right s < n /\ left s <= right s + 1 /\
              (forall j, 0 <= j < left s -> P j = false) /\
              (forall j, right s < j < n -> P j = true) /\
              (right s < n - 1 -> rangeIndex s = right s + 1))
    (init_state (_ascRangeEnds this))) as [Hinv Hexit].
  - unfold init_state; cbn. fold n. repeat split; try lia.
  - intros s (Hl & Hr & Hlr & Hlow & Hhigh & Hidx) Hc.
    pose proof (mid_bounds s Hc) as Hmid.
    unfold loop_body. fold P.
    destruct (P ((left s + right s) / 2)) eqn:Htest; cbn.
    + repeat split; try lia.
      * intros j Hj. apply Hlow. lia.
      * intros j Hj.
        apply (Hmono ((left s + right s) / 2) j); [lia|lia|done].
    + repeat split; try lia.
      * intros j Hj. destruct (P j) eqn:Hpj; [|done].
        rewrite <- Htest. symmetry.
        apply (Hmono j ((left s + right s) / 2)); [lia|lia|done].
      * intros j Hj. apply Hhigh. lia.
  - set (fin := while_loop (_ascRangeEnds this) pointInRange
                  (init_state (_ascRangeEnds this))) in *.
    destruct Hinv as (Hl & Hr & Hlr & Hlow & Hhigh & Hidx).
    unfold loop_cond in Hexit. apply Z.leb_gt in Hexit.
    assert (right fin < n - 1) as Hlt.
    { destruct (Z.eq_dec (right fin) (n - 1)) as [Heq|]; [|lia].
      rewrite Hlow in Hlast; [done|lia]. }
    rewrite (Hidx Hlt).
    repeat split; try lia.
    + apply Hhigh. lia.
    + intros j Hj. apply Hlow. lia.
Qed.

(** The test is antitone (it passes on an initial segment only): the
    result is 0. *)
Lemma search_antitone :
  (forall i j, 0 <= i <= j ->
     below (_ascRangeEnds this) pointInRange j = true ->
     below (_ascRangeEnds this) pointInRange i = true) ->
  _findCorrespondingRangeIndex this pointInRange = 0.
Proof.
  unfold _findCorrespondingRangeIndex.
  set (P := below (_ascRangeEnds this) pointInRange).
  intros Hanti.
  destruct (while_loop_invariant (_ascRangeEnds this) pointInRange
    (fun s => 0 <= left s /\
              ((rangeIndex s = 0 /\
                (0 < left s -> forall j, left s <= j -> P j = false)) \/
               (left s = 0 /\ -1 <= right s /\ rangeIndex s = right s + 1 /\
                forall j, 0 <= j <= right s + 1 -> P j = true)))
    (init_state (_ascRangeEnds this))) as [Hinv Hexit].
  - unfold init_state; cbn. split; [lia|]. left. split; [done|lia].
  - intros s [Hl Hcases] Hc.
    pose proof (mid_bounds s Hc) as Hmid.
    unfold loop_body. fold P.
    destruct (P ((left s + right s) / 2)) eqn:Htest; cbn.
    + split; [lia|]. right.
      destruct Hcases as [[Hidx Hnone]|(Hl0 & Hr & Hidx & Hall)].
      * destruct (Z.eq_dec (left s) 0) as [Hl0|Hl0].
        -- repeat split; try lia.
           intros j Hj. apply (Hanti j ((left s + right s) / 2)); [lia|done].
        -- rewrite Hnone in Htest; [done|lia|lia].
      * repeat split; try lia.
        intros j Hj. apply Hall. lia.
    + split; [lia|].
      destruct Hcases as [[Hidx Hnone]|(Hl0 & Hr & Hidx & Hall)].
      * left. split; [done|]. intros _ j Hj.
        destruct (P j) eqn:Hpj; [|done].
        rewrite <- Htest. symmetry.
        apply (Hanti ((left s + right s) / 2) j); [lia|done].
      * rewrite Hall in Htest; [done|lia].
  - set (fin := while_loop (_ascRangeEnds this) pointInRange
                  (init_state (_ascRangeEnds this))) in *.
    unfold loop_cond in Hexit. apply Z.leb_gt in Hexit.
    destruct Hinv as [Hl [[Hidx _]|(Hl0 & Hr & Hidx & _)]]; lia.
Qed.

End Search.

End SearchFacts.

(** ** The constructor *)

Module ConstructorFacts.
Import NumberFacts.

Lemma first_refused_None (ws : list number) :
  first_refused ws = None <-> Forall (fun w => num_le w zero = false) ws.
Proof.
  induction ws as [|w ws IH]; cbn.
  - split; [constructor|done].
  - destruct (num_le w zero) eqn:Hw.
    + split; [done|]. intros Hall. apply Forall_cons in Hall as [Hw' _].
      congruence.
    + destruct (first_refused ws) as [[i v]|]; cbn.
      * split; [done|]. intros Hall. apply Forall_cons in Hall as [_ Hall].
        by apply IH in Hall.
      * split; [|done]. intros _. apply Forall_cons. split; [done|by apply IH].
Qed.

(** [first_refused] finds the leftmost weight that fails the test. *)
Lemma first_refused_Some (ws : list number) (i : nat) (w : number) :
  first_refused ws = Some (i, w) <->
  ws !! i = Some w /\ num_le w zero = true /\
  forall (j : nat) (v : number),
    (j < i)%nat -> ws !! j = Some v -> num_le v zero = false.
Proof.
  revert i. induction ws as [|w0 ws IH]; intros i; cbn.
  - split; [done|]. by intros [? _].
  - destruct (num_le w0 zero) eqn:Hw0.
    + split.
      * intros [= <- <-]. repeat split; [done|]. intros j v Hj. lia.
      * intros (Hi & Hw & Hbefore). destruct i as [|i].
        -- cbn in Hi. congruence.
        -- specialize (Hbefore O w0). cbn in Hbefore.
           rewrite Hbefore in Hw0; [done|lia|done].
    + destruct (first_refused ws) as [[i' v']|] eqn:Hrest; cbn.
      * split.
        -- intros [= <- <-]. destruct (proj1 (IH i') eq_refl) as (Hi & Hv & Hb).
           repeat split; [done|done|].
           intros [|j] v Hj Hjv; cbn in Hjv; [congruence|].
           apply (Hb j); [lia|done].
        -- intros (Hi & Hw & Hbefore). destruct i as [|i].
           ++ cbn in Hi. congruence.
           ++ cbn in Hi. assert (Some (i', v') = Some (i, w)) as Heq.
              { apply IH. repeat split; [done|done|].
                intros j v Hj Hjv. apply (Hbefore (S j)); [lia|done]. }
              congruence.
      * split; [done|].
        intros (Hi & Hw & Hbefore). destruct i as [|i].
        -- cbn in Hi. congruence.
        -- cbn in Hi. exfalso.
           assert (None = Some (i, w)) as Heq; [|done].
           apply IH. repeat split; [done|done|].
           intros j v Hj Hjv. apply (Hbefore (S j)); [lia|done].
Qed.

(** What the weights loop computes. *)
Lemma weights_loop_spec (ws acc : list number) (s : number) :
  weights_loop ws acc s =
  match first_refused ws with
  | Some (_, w) => Throw (NonPositiveWeightError w)
  | None => Return (acc ++ running_sums s ws, fold_left num_add ws s)
  end.
Proof.
  revert acc s. induction ws as [|w ws IH]; intros acc s; cbn.
  - by rewrite app_nil_r.
  - destruct (num_le w zero); cbn; [done|].
    rewrite IH. destruct (first_refused ws) as [[i v]|]; cbn; [done|].
    by rewrite <- app_assoc.
Qed.

(** The constructor as a case analysis on its input. *)
Lemma constructor_spec {T : Type} (items : list T) (ws : list number) :
  constructor items ws =
  if (length items =? 0)%nat then Throw ZeroItemsError
  else if negb (length items =? length ws)%nat
  then Throw (LengthMismatchError (length items) (length ws))
  else match first_refused ws with
       | Some (_, w) => Throw (NonPositiveWeightError w)
       | None => Return {| _items := items;
                           _ascRangeEnds := running_sums zero ws;
                           _lastRangeEnd := fold_left num_add ws zero |}
       end.
Proof.
  unfold constructor.
  destruct (length items =? 0)%nat; cbn; [done|].
  destruct (length items =? length ws)%nat; cbn; [|done].
  rewrite weights_loop_spec.
  by destruct (first_refused ws) as [[i v]|].
Qed.

(** What is known of a sampler that the constructor returned. *)
Lemma constructor_Return {T : Type} (items : list T) (ws : list number)
    (this : WeightedRandomItemSampler T) :
  constructor items ws = Return this ->
  items <> [] /\ length items = length ws /\
  Forall (fun w => num_le w zero = false) ws /\
  _items this = items /\
  _ascRangeEnds this = running_sums zero ws /\
  _lastRangeEnd this = fold_left num_add ws zero.
Proof.
  rewrite constructor_spec.
  destruct (Nat.eqb_spec (length items) 0) as [|Hne]; [done|].
  destruct (Nat.eqb_spec (length items) (length ws)) as [Hlen|]; [|done].
  cbn. destruct (first_refused ws) as [[i v]|] eqn:Hfirst; [done|].
  intros [= <-]. cbn. repeat split; try done.
  - intros ->. by cbn in Hne.
  - by apply first_refused_None.
Qed.

Lemma running_sums_length (s : number) (ws : list number) :
  length (running_sums s ws) = length ws.
Proof.
  revert s. induction ws as [|w ws IH]; intros s; cbn; [done|].
  by rewrite IH.
Qed.

Lemma running_sums_lookup (s : number) (ws : list number) (i : nat) :
  (i < length ws)%nat ->
  running_sums s ws !! i = Some (fold_left num_add (take (S i) ws) s).
Proof.
  revert s i. induction ws as [|w ws IH]; intros s i Hi; cbn in *; [lia|].
  destruct i as [|i]; cbn; [by rewrite take_0|].
  rewrite IH; [done|lia].
Qed.

Lemma running_sums_last (s : number) (ws : list number) :
  ws <> [] ->
  running_sums s ws !! (length ws - 1)%nat = Some (fold_left num_add ws s).
Proof.
  intros Hne. destruct ws as [|w ws]; [done|].
  rewrite running_sums_lookup; [|cbn; lia].
  f_equal. f_equal. apply take_ge. cbn. lia.
Qed.

(** The accumulated sum agrees with the sum of the specification. *)
Lemma fold_left_weights_sum (ws : list number) (i : nat) :
  (i < length ws)%nat ->
  fold_left num_add (take (S i) ws) zero = weights_sum ws i.
Proof.
  induction i as [|i IH]; intros Hi.
  - destruct ws as [|w ws]; cbn in *; [lia|].
    rewrite take_0. cbn. apply num_add_zero_l.
  - destruct (lookup_lt_is_Some_2 ws (S i) Hi) as [w Hw].
    rewrite (take_S_r ws (S i) w Hw), fold_left_app. cbn.
    rewrite IH; [|lia]. by rewrite Hw.
Qed.

(** Every running sum that is not NaN is at least the starting sum. *)
Lemma running_sums_ge_start (s : number) (ws : list number) (i : nat)
    (y : number) :
  s = NaN \/ num_le zero s = true ->
  Forall (fun w => num_le w zero = false) ws ->
  running_sums s ws !! i = Some y -> y <> NaN ->
  num_le s y = true.
Proof.
  revert s i. induction ws as [|w ws IH]; intros s i Hs Hws Hy Hnan; [done|].
  apply Forall_cons in Hws as [Hw Hws].
  assert (s <> NaN /\ w <> NaN -> num_le s (num_add s w) = true /\
                                  num_le zero (num_add s w) = true) as Hstep.
  { intros [Hs' Hw']. apply num_add_weight; [|done|done].
    by destruct Hs. }
  destruct i as [|i]; cbn in Hy.
  - injection Hy as <-. apply Hstep. by apply num_add_not_nan.
  - assert (num_le (num_add s w) y = true) as Hle.
    { apply (IH (num_add s w) i); [|done|done|done].
      destruct (nan_or_not (num_add s w)) as [|Hsum]; [by left|].
      right. apply Hstep. by apply num_add_not_nan. }
    apply num_le_trans with (num_add s w); [|done].
    apply Hstep. apply num_add_not_nan.
    by apply num_le_not_nan in Hle as [? _].
Qed.

(** The table is ascending as far as it is free of NaN. *)
Lemma running_sums_ascending (s : number) (ws : list number) (i j : nat)
    (x y : number) :
  s = NaN \/ num_le zero s = true ->
  Forall (fun w => num_le w zero = false) ws ->
  (i <= j)%nat ->
  running_sums s ws !! i = Some x -> running_sums s ws !! j = Some y ->
  y <> NaN ->
  num_le x y = true.
Proof.
  revert s i j. induction ws as [|w ws IH]; intros s i j Hs Hws Hij Hx Hy Hnan;
    [done|].
  pose proof Hws as Hws'. apply Forall_cons in Hws' as [Hw Hrest].
  assert (num_add s w = NaN \/ num_le zero (num_add s w) = true) as Hsum.
  { destruct (nan_or_not (num_add s w)) as [|Hsum]; [by left|].
    right. apply num_add_not_nan in Hsum as [Hs' Hw'].
    apply num_add_weight; [by destruct Hs|done|done]. }
  destruct i as [|i], j as [|j]; cbn in Hx, Hy; try lia.
  - injection Hx as <-. injection Hy as <-. by apply num_le_refl.
  - injection Hx as <-. by apply (running_sums_ge_start _ ws j).
  - apply (IH (num_add s w) i j); try done. lia.
Qed.

Lemma positive_weights_accepted (ws : list number) :
  Forall (fun w => num_lt zero w = true) ws ->
  Forall (fun w => num_le w zero = false) ws.
Proof.
  intros Hws. eapply Forall_impl; [exact Hws|].
  intros w Hpos. by apply num_pos_not_le.
Qed.

(** With positive weights no running sum is negative or NaN. *)
Lemma running_sums_nonneg (s : number) (ws : list number) (i : nat)
    (y : number) :
  num_le zero s = true ->
  Forall (fun w => num_lt zero w = true) ws ->
  running_sums s ws !! i = Some y ->
  num_le zero y = true.
Proof.
  revert s i. induction ws as [|w ws IH]; intros s i Hs Hws Hy; [done|].
  apply Forall_cons in Hws as [Hw Hws].
  assert (num_le zero (num_add s w) = true) as Hsum.
  { apply num_add_weight; [done|by apply num_pos_not_le|].
    by apply num_lt_not_nan in Hw as [_ ?]. }
  destruct i as [|i]; cbn in Hy.
  - by injection Hy as <-.
  - by apply (IH (num_add s w) i).
Qed.

(** With positive weights the table never descends. *)
Lemma running_sums_non_decreasing (s : number) (ws : list number) :
  num_le zero s = true ->
  Forall (fun w => num_lt zero w = true) ws ->
  non_decreasing (running_sums s ws).
Proof.
  intros Hs Hws i j x y Hij Hx Hy.
  apply (running_sums_ascending s ws i j); try done.
  - by right.
  - by apply positive_weights_accepted.
  - pose proof (running_sums_nonneg s ws j y Hs Hws Hy) as Hy0.
    by apply num_le_not_nan in Hy0 as [_ ?].
Qed.

End ConstructorFacts.

(** ** Samplers returned by the constructor *)

Module SamplerFacts.
Import NumberFacts ConstructorFacts.

Section Constructed.
Context {T : Type}.
Variable items : list T.
Variable respectiveWeights : list number.
Variable this : WeightedRandomItemSampler T.
Hypothesis Hnew : constructor items respectiveWeights = Return this.

Lemma table_length : length (_ascRangeEnds this) = length items.
Proof.
  destruct (constructor_Return _ _ _ Hnew) as (_ & Hlen & _ & _ & Hends & _).
  by rewrite Hends, running_sums_length.
Qed.

Lemma items_nonempty : (0 < length items)%nat.
Proof.
  destruct (constructor_Return _ _ _ Hnew) as (Hne & _).
  destruct items; [done|cbn; lia].
Qed.

Lemma items_kept : _items this = items.
Proof. by destruct (constructor_Return _ _ _ Hnew) as (_ & _ & _ & ? & _). Qed.

Lemma array_get_Some {A : Type} (arr : list A) (i : Z) (x : A) :
  array_get arr i = Some x <->
  0 <= i < Z.of_nat (length arr) /\ arr !! Z.to_nat i = Some x.
Proof.
  unfold array_get. destruct (Z.ltb_spec i 0) as [Hi|Hi].
  - split; [done|lia].
  - split.
    + intros Hx. split; [|done]. apply lookup_lt_Some in Hx. lia.
    + by intros [_ Hx].
Qed.

Lemma array_get_in_bounds {A : Type} (arr : list A) (i : Z) :
  0 <= i < Z.of_nat (length arr) -> exists x, array_get arr i = Some x.
Proof.
  intros Hi. destruct (lookup_lt_is_Some_2 arr (Z.to_nat i)) as [x Hx]; [lia|].
  exists x. by apply array_get_Some.
Qed.

(** A cell that passes the test exists and is above the point. *)
Lemma below_true (ascRangeEnds : list number) (point : number) (i : Z) :
  below ascRangeEnds point i = true <->
  exists x, array_get ascRangeEnds i = Some x /\ num_lt point x = true.
Proof.
  unfold below. destruct (array_get ascRangeEnds i) as [x|]; cbn.
  - split; [by exists x|]. by intros (? & [= <-] & ?).
  - rewrite num_lt_nan_r. split; [done|]. by intros (? & ? & ?).
Qed.

(** The table ascends, as far as it is free of NaN. *)
Lemma table_ascending (i j : Z) (x y : number) :
  0 <= i <= j ->
  array_get (_ascRangeEnds this) i = Some x ->
  array_get (_ascRangeEnds this) j = Some y ->
  y <> NaN ->
  num_le x y = true.
Proof.
  intros Hij [_ Hx]%array_get_Some [_ Hy]%array_get_Some Hnan.
  destruct (constructor_Return _ _ _ Hnew) as (_ & _ & Hws & _ & Hends & _).
  rewrite Hends in Hx, Hy.
  apply (running_sums_ascending zero respectiveWeights
           (Z.to_nat i) (Z.to_nat j)); try done; [by right|lia].
Qed.

(** The cached total is the last cell of the table. *)
Lemma table_last :
  array_get (_ascRangeEnds this) (Z.of_nat (length items) - 1)
  = Some (_lastRangeEnd this).
Proof.
  pose proof items_nonempty as Hn.
  destruct (constructor_Return _ _ _ Hnew)
    as (Hne & Hlen & _ & _ & Hends & Hlast).
  apply array_get_Some. rewrite table_length. split; [lia|].
  rewrite Hends, Hlast.
  replace (Z.to_nat (Z.of_nat (length items) - 1))
    with (length respectiveWeights - 1)%nat by lia.
  apply running_sums_last. intros ->. cbn in Hlen. lia.
Qed.

(** Every cell is at most the total, when the total is a number. *)
Lemma table_le_total (i : Z) (x : number) :
  array_get (_ascRangeEnds this) i = Some x ->
  _lastRangeEnd this <> NaN ->
  num_le x (_lastRangeEnd this) = true.
Proof.
  intros Hx Hnan. pose proof Hx as [Hi _]%array_get_Some.
  rewrite table_length in Hi.
  apply (table_ascending i (Z.of_nat (length items) - 1));
    [lia|done|apply table_last|done].
Qed.

(** Below the total, the test is monotone in the index. *)
Lemma below_monotone (point : number) (i j : Z) :
  _lastRangeEnd this <> NaN ->
  0 <= i <= j -> j < Z.of_nat (length (_ascRangeEnds this)) ->
  below (_ascRangeEnds this) point i = true ->
  below (_ascRangeEnds this) point j = true.
Proof.
  intros Hnan Hij Hj (x & Hx & Hpx)%below_true.
  destruct (array_get_in_bounds (_ascRangeEnds this) j) as [y Hy]; [lia|].
  apply below_true. exists y. split; [done|].
  apply num_lt_le_trans with x; [done|].
  apply (table_ascending i j); try done.
  by apply (table_le_total j y Hy) in Hnan as [? _]%num_le_not_nan.
Qed.

(** In every table, the test is antitone in the index once the point is
    under the first cell. *)
Lemma below_antitone (point b : number) (i j : Z) :
  array_get (_ascRangeEnds this) 0 = Some b -> num_lt point b = true ->
  0 <= i <= j ->
  below (_ascRangeEnds this) point j = true ->
  below (_ascRangeEnds this) point i = true.
Proof.
  intros Hb Hpb Hij (y & Hy & Hpy)%below_true.
  pose proof Hy as [Hj _]%array_get_Some.
  destruct (array_get_in_bounds (_ascRangeEnds this) i) as [x Hx]; [lia|].
  apply below_true. exists x. split; [done|].
  assert (y <> NaN) as Hynan by by apply num_lt_not_nan in Hpy as [_ ?].
  assert (num_le x y = true) as Hxy by by apply (table_ascending i j).
  apply num_lt_le_trans with b; [done|].
  apply (table_ascending 0 i); try done; [lia|].
  by apply num_le_not_nan in Hxy as [? _].
Qed.

(** At or above the total, no cell passes the test. *)
Lemma below_none (point : number) (i : Z) :
  num_le (_lastRangeEnd this) point = true ->
  below (_ascRangeEnds this) point i = false.
Proof.
  intros Hle. apply not_true_is_false. intros (x & Hx & Hpx)%below_true.
  assert (_lastRangeEnd this <> NaN) as Hnan
    by by apply num_le_not_nan in Hle as [? _].
  pose proof (table_le_total i x Hx Hnan) as Hxt.
  pose proof (num_le_trans _ _ _ Hxt Hle) as Hxp.
  apply num_le_lt_false in Hxp. congruence.
Qed.

End Constructed.

End SamplerFacts.

(** * The claims *)

Import NumberFacts LoopFacts SearchFacts ConstructorFacts SamplerFacts.

(** The sampler of the specification's example: items A and B with the
    weights 1 and 2. *)
Lemma example_sampler :
  constructor ["A"; "B"] [lit 1; lit 2] =
  Return {| _items := ["A"; "B"];
            _ascRangeEnds := [lit 1; lit 3];
            _lastRangeEnd := lit 3 |}.
Proof. reflexivity. Qed.

(** C1. For a sampler returned by the constructor and a point [p] with
    [0 <= p < total], [_findCorrespondingRangeIndex] returns the leftmost
    index [i] with [p < boundary[i]]; [i] is the one index whose half-open
    range [[boundary[i-1], boundary[i])] (starting at 0 for [i = 0])
    contains [p].  For the weights 1 and 2 the table is [1; 3], the point
    0.999 gives index 0 and the point 1.5 gives index 1. *)
Theorem C1_lookup_is_leftmost :
  (forall (T : Type) (items : list T) (respectiveWeights : list number)
          (this : WeightedRandomItemSampler T) (p : number),
     constructor items respectiveWeights = Return this ->
     num_le zero p = true ->
     num_lt p (_lastRangeEnd this) = true ->
     let i := _findCorrespondingRangeIndex this p in
     0 <= i < Z.of_nat (length items) /\
     below (_ascRangeEnds this) p i = true /\
     (forall j, 0 <= j < i -> below (_ascRangeEnds this) p j = false) /\
     in_range (_ascRangeEnds this) p i = true /\
     (forall j, in_range (_ascRangeEnds this) p j = true -> j = i)) /\
  (forall this,
     constructor ["A"; "B"] [lit 1; lit 2] = Return this ->
     _ascRangeEnds this = [lit 1; lit 3] /\
     _findCorrespondingRangeIndex this (lit 0.999) = 0 /\
     _findCorrespondingRangeIndex this (lit 1.5) = 1).
Proof.
  split.
  - intros T items ws this p Hnew H0p Hpt i.
    assert (_lastRangeEnd this <> NaN) as Hnan
      by by apply num_lt_not_nan in Hpt as [_ ?].
    assert (p <> NaN) as Hpnan by by apply num_lt_not_nan in Hpt as [? _].
    pose proof (table_length _ _ _ Hnew) as Hlen.
    pose proof (items_nonempty _ _ _ Hnew) as Hpos.
    pose proof (table_last _ _ _ Hnew) as Hlast.
    destruct (search_leftmost this p) as (Hi & Hpi & Hleft).
    { lia. }
    { intros a b. by apply (below_monotone items ws this Hnew). }
    { rewrite Hlen. apply below_true. by exists (_lastRangeEnd this). }
    fold i in Hi, Hpi, Hleft.
    assert (num_le (range_start (_ascRangeEnds this) i) p = true) as Hstart.
    { unfold range_start. destruct (Z.eqb_spec i 0) as [|Hi0]; [done|].
      destruct (array_get_in_bounds (_ascRangeEnds this) (i - 1)) as [y Hy];
        [lia|].
      rewrite Hy. cbn.
      assert (y <> NaN) as Hynan.
      { by apply (table_le_total items ws this Hnew _ _ Hy)
          in Hnan as [? _]%num_le_not_nan. }
      apply num_not_lt_le; [|done|done].
      specialize (Hleft (i - 1)). unfold below in Hleft.
      rewrite Hy in Hleft. apply Hleft. lia. }
    repeat split; try lia; try done.
    { unfold in_range. by rewrite Hstart, Hpi. }
    intros j [Hjstart Hpj]%andb_prop.
    pose proof Hpj as (y & [Hj _]%array_get_Some & _)%below_true.
    destruct (Z.lt_trichotomy j i) as [Hlt|[Heq|Hgt]]; [|done|].
    + rewrite Hleft in Hpj; [done|lia].
    + exfalso. unfold range_start in Hjstart.
      destruct (Z.eqb_spec j 0) as [|_]; [lia|].
      destruct (array_get_in_bounds (_ascRangeEnds this) (j - 1)) as [z Hz];
        [lia|].
      rewrite Hz in Hjstart. cbn in Hjstart.
      apply below_true in Hpi as (x & Hx & Hpx).
      assert (num_le x z = true) as Hxz.
      { apply (table_ascending items ws this Hnew i (j - 1)); try done; [lia|].
        by apply num_le_not_nan in Hjstart as [? _]. }
      pose proof (num_le_trans _ _ _ Hxz Hjstart) as Hxp.
      apply num_le_lt_false in Hxp. congruence.
  - intros this. rewrite example_sampler. intros [= <-].
    repeat split; reflexivity.
Qed.

(** The general part of C1 at the sampler of the example and the point
    1.5. *)
Lemma C1_lookup_is_leftmost_witness :
  exists this,
    constructor ["A"; "B"] [lit 1; lit 2] = Return this /\
    num_le zero (lit 1.5) = true /\
    num_lt (lit 1.5) (_lastRangeEnd this) = true /\
    in_range (_ascRangeEnds this) (lit 1.5)
      (_findCorrespondingRangeIndex this (lit 1.5)) = true.
Proof.
  eexists. split; [exact example_sampler|].
  split; [reflexivity|]. split; [reflexivity|].
  apply (proj1 C1_lookup_is_leftmost _ _ _ _ (lit 1.5) example_sampler);
    reflexivity.
Defined.

(** C2 (as amended: the table is non-decreasing, not strictly
    increasing).  For [n >= 1] items and [n] weights that are all positive,
    the constructor returns a sampler; its table has [n] cells, cell [i] is
    [weight[0] + ... + weight[i]], summed from left to right by the
    addition of the language, the table never descends, and the cached
    total is the last cell. *)
Theorem C2_boundary_table (T : Type) (items : list T)
    (respectiveWeights : list number) :
  items <> [] ->
  length items = length respectiveWeights ->
  Forall (fun w => num_lt zero w = true) respectiveWeights ->
  exists this,
    constructor items respectiveWeights = Return this /\
    _items this = items /\
    length (_ascRangeEnds this) = length items /\
    (forall i : nat, (i < length items)%nat ->
       _ascRangeEnds this !! i = Some (weights_sum respectiveWeights i)) /\
    non_decreasing (_ascRangeEnds this) /\
    _ascRangeEnds this !! (length items - 1)%nat = Some (_lastRangeEnd this).
Proof.
  intros Hne Hlen Hpos.
  pose proof (positive_weights_accepted _ Hpos) as Hacc.
  apply first_refused_None in Hacc.
  eexists. split.
  { rewrite constructor_spec, Hacc.
    destruct (Nat.eqb_spec (length items) 0) as [H0|_].
    { destruct items; [done|cbn in H0; lia]. }
    destruct (Nat.eqb_spec (length items) (length respectiveWeights)); [|done].
    reflexivity. }
  cbn. repeat split.
  - by rewrite running_sums_length.
  - intros i Hi. rewrite running_sums_lookup by lia.
    f_equal. apply fold_left_weights_sum. lia.
  - by apply running_sums_non_decreasing.
  - rewrite Hlen. apply running_sums_last. intros ->.
    destruct items; [done|cbn in Hlen; lia].
Qed.

Lemma C2_boundary_table_witness :
  exists this,
    constructor ["A"; "B"] [lit 1; lit 2] = Return this /\
    non_decreasing (_ascRangeEnds this) /\
    _ascRangeEnds this !! 1%nat = Some (_lastRangeEnd this).
Proof.
  destruct (C2_boundary_table string ["A"; "B"] [lit 1; lit 2])
    as (this & Hnew & _ & _ & _ & Hasc & Hlast).
  - done.
  - reflexivity.
  - by repeat constructor.
  - exists this. by repeat split.
Defined.

(** C2 as stated, with weights only required to be positive, fails: the
    weights [Infinity] and 1 are both positive and are accepted, and the
    table [Infinity; Infinity] is not strictly increasing. *)
Lemma C2_counterexample :
  Forall (fun w => num_lt zero w = true) [PosInf; lit 1] /\
  exists this,
    constructor ["A"; "B"] [PosInf; lit 1] = Return this /\
    _ascRangeEnds this = [PosInf; PosInf] /\
    ~ strictly_increasing (_ascRangeEnds this).
Proof.
  split; [by repeat constructor|].
  eexists. split; [reflexivity|]. split; [reflexivity|].
  intros Hstrict.
  by specialize (Hstrict 0%nat 1%nat PosInf PosInf ltac:(lia) eq_refl eq_refl).
Qed.

(** C3. The constructor throws exactly when the input is invalid, and the
    checks come in this order: no item gives the zero-items error;
    otherwise a number of weights different from the number of items gives
    the length-mismatch error; otherwise a weight [<= 0] gives the
    non-positive-weight error.  When it throws, no sampler is returned. *)
Theorem C3_validation_order (T : Type) (items : list T)
    (respectiveWeights : list number) :
  (items = [] -> constructor items respectiveWeights = Throw ZeroItemsError) /\
  (items <> [] -> length items <> length respectiveWeights ->
   constructor items respectiveWeights =
   Throw (LengthMismatchError (length items) (length respectiveWeights))) /\
  (items <> [] -> length items = length respectiveWeights ->
   (exists w, w ∈ respectiveWeights /\ num_le w zero = true) ->
   exists w, w ∈ respectiveWeights /\ num_le w zero = true /\
     constructor items respectiveWeights = Throw (NonPositiveWeightError w)) /\
  ((exists e, constructor items respectiveWeights = Throw e) <->
   items = [] \/ length items <> length respectiveWeights \/
   exists w, w ∈ respectiveWeights /\ num_le w zero = true) /\
  ((exists e, constructor items respectiveWeights = Throw e) ->
   ~ exists this, constructor items respectiveWeights = Return this).
Proof.
  assert ((exists w, w ∈ respectiveWeights /\ num_le w zero = true) <->
          exists i w, first_refused respectiveWeights = Some (i, w)) as Hsome.
  { split.
    - intros (w & Hin & Hw).
      destruct (first_refused respectiveWeights) as [[i v]|] eqn:Hfirst;
        [by exists i, v|].
      apply first_refused_None in Hfirst.
      rewrite Forall_forall in Hfirst. rewrite (Hfirst w Hin) in Hw. done.
    - intros (i & w & (Hi & Hw & _)%first_refused_Some).
      exists w. split; [|done]. apply list_elem_of_lookup. by exists i. }
  rewrite constructor_spec.
  destruct (Nat.eqb_spec (length items) 0) as [H0|H0].
  { apply length_zero_iff_nil in H0. subst items. cbn. split_and!.
    - done.
    - by intros Hne.
    - by intros Hne.
    - split; [intros _; by left|intros _; by eexists].
    - by intros _ [this ?]. }
  assert (items <> []) as Hne by (intros ->; by cbn in H0).
  destruct (Nat.eqb_spec (length items) (length respectiveWeights))
    as [Hlen|Hlen]; cbn.
  - destruct (first_refused respectiveWeights) as [[i v]|] eqn:Hfirst.
    + pose proof Hfirst as (Hi & Hv & _)%first_refused_Some.
      assert (v ∈ respectiveWeights) as Hin.
      { apply list_elem_of_lookup. by exists i. }
      split_and!.
      * by intros ->.
      * by intros _ Hlen'.
      * intros _ _ _. by exists v.
      * split; [|intros _; by eexists].
        intros _. right. right. by exists v.
      * by intros _ [this ?].
    + split_and!.
      * by intros ->.
      * by intros _ Hlen'.
      * by intros _ _ (i & w & ?)%Hsome.
      * split; [by intros [e ?]|].
        intros [?|[?|(i & w & ?)%Hsome]]; done.
      * by intros [e ?].
  - split_and!.
    + by intros ->.
    + done.
    + by intros _ Hlen'.
    + split; [|intros _; by eexists].
      intros _. right. by left.
    + by intros _ [this ?].
Qed.

(** The three failures of the test suite. *)
Lemma C3_validation_order_witness :
  constructor (T := string) [] [lit 5; lit 4] = Throw ZeroItemsError /\
  constructor ["item1"; "item2"] [lit 1; lit 2; lit 3] =
    Throw (LengthMismatchError 2 3) /\
  exists w, w ∈ [lit 1; lit (-2)] /\ num_le w zero = true /\
    constructor ["item1"; "item2"] [lit 1; lit (-2)] =
    Throw (NonPositiveWeightError w).
Proof.
  split; [|split].
  - by apply (C3_validation_order string [] [lit 5; lit 4]).
  - by apply (C3_validation_order string ["item1"; "item2"]
                [lit 1; lit 2; lit 3]).
  - apply (C3_validation_order string ["item1"; "item2"] [lit 1; lit (-2)]);
      [done|done|].
    exists (lit (-2)). split; [|reflexivity].
    apply list_elem_of_lookup. by exists 1%nat.
Defined.

(** C4 (as amended: the test is [weight <= 0], and the error carries the
    value only).  When the weights are as many as the items and one of them
    is [<= 0], the constructor throws the non-positive-weight error, which
    carries the value of the leftmost such weight. *)
Theorem C4_non_positive_weight (T : Type) (items : list T)
    (respectiveWeights : list number) (i : nat) (w : number) :
  length items = length respectiveWeights ->
  respectiveWeights !! i = Some w ->
  num_le w zero = true ->
  exists (j : nat) (v : number),
    (j <= i)%nat /\
    respectiveWeights !! j = Some v /\ num_le v zero = true /\
    (forall (k : nat) (u : number),
       (k < j)%nat -> respectiveWeights !! k = Some u ->
       num_le u zero = false) /\
    constructor items respectiveWeights = Throw (NonPositiveWeightError v).
Proof.
  intros Hlen Hi Hw.
  destruct (first_refused respectiveWeights) as [[j v]|] eqn:Hfirst.
  - pose proof Hfirst as (Hj & Hv & Hbefore)%first_refused_Some.
    exists j, v. repeat split; try done.
    + destruct (Nat.le_gt_cases j i) as [|Hlt]; [done|].
      rewrite (Hbefore i w Hlt Hi) in Hw. done.
    + rewrite constructor_spec, Hfirst.
      destruct (Nat.eqb_spec (length items) 0) as [H0|_].
      { apply lookup_lt_Some in Hi. lia. }
      destruct (Nat.eqb_spec (length items) (length respectiveWeights));
        done.
  - apply first_refused_None in Hfirst.
    rewrite Forall_forall in Hfirst.
    rewrite Hfirst in Hw; [done|]. apply list_elem_of_lookup. by exists i.
Qed.

Lemma C4_non_positive_weight_witness :
  exists (j : nat) (v : number),
    (j <= 2)%nat /\
    [lit 0.3; lit 4; lit 0] !! j = Some v /\ num_le v zero = true /\
    (forall (k : nat) (u : number),
       (k < j)%nat -> [lit 0.3; lit 4; lit 0] !! k = Some u ->
       num_le u zero = false) /\
    constructor ["item1"; "item2"; "item3"] [lit 0.3; lit 4; lit 0] =
    Throw (NonPositiveWeightError v).
Proof.
  apply (C4_non_positive_weight string ["item1"; "item2"; "item3"]
           [lit 0.3; lit 4; lit 0] 2%nat (lit 0)); reflexivity.
Defined.

(** C4 as stated fails: a NaN weight and an infinite weight are accepted,
    and the error does not tell the position of the weight (the same error
    is thrown for a refused weight at index 0 and at index 1). *)
Lemma C4_counterexample :
  constructor ["item1"] [NaN] =
    Return {| _items := ["item1"]; _ascRangeEnds := [NaN];
              _lastRangeEnd := NaN |} /\
  constructor ["item1"] [PosInf] =
    Return {| _items := ["item1"]; _ascRangeEnds := [PosInf];
              _lastRangeEnd := PosInf |} /\
  constructor ["item1"; "item2"] [lit (-1); lit 1] =
    Throw (NonPositiveWeightError (lit (-1))) /\
  constructor ["item1"; "item2"] [lit 1; lit (-1)] =
    Throw (NonPositiveWeightError (lit (-1))).
Proof. repeat split; reflexivity. Qed.

(** C5 (as amended: there is no clamping to [n - 1]).  For a sampler
    returned by the constructor, a point that is at least the total is
    below no boundary: the search keeps its initial candidate 0, and the
    item selected for such a point is the first item. *)
Theorem C5_point_at_or_above_total (T : Type) (items : list T)
    (respectiveWeights : list number) (this : WeightedRandomItemSampler T)
    (p : number) :
  constructor items respectiveWeights = Return this ->
  num_le (_lastRangeEnd this) p = true ->
  _findCorrespondingRangeIndex this p = 0 /\
  (exists first, items !! 0%nat = Some first /\
     array_get (_items this) (_findCorrespondingRangeIndex this p)
     = Some first) /\
  forall random, num_mul random (_lastRangeEnd this) = p ->
    fst (sample random this) = items !! 0%nat.
Proof.
  intros Hnew Hle.
  assert (_findCorrespondingRangeIndex this p = 0) as Hidx.
  { apply search_keeps_candidate. intros i.
    by apply (below_none items respectiveWeights this Hnew). }
  rewrite Hidx, (items_kept _ _ _ Hnew). split; [done|]. split.
  - pose proof (items_nonempty _ _ _ Hnew) as Hpos.
    destruct items as [|first rest]; [cbn in Hpos; lia|]. by exists first.
  - intros random <-. unfold sample. cbn.
    by rewrite Hidx, (items_kept _ _ _ Hnew).
Qed.

Lemma C5_point_at_or_above_total_witness :
  exists this,
    constructor ["A"; "B"] [lit 1; lit 2] = Return this /\
    _findCorrespondingRangeIndex this (lit 3) = 0.
Proof.
  eexists. split; [exact example_sampler|].
  apply (C5_point_at_or_above_total string ["A"; "B"] [lit 1; lit 2] _
           (lit 3) example_sampler).
  reflexivity.
Defined.

(** C5 as stated fails: for the weights 1 and 2 the point 3 equals the
    total, the search returns 0 and not [n - 1 = 1], and the item at that
    index is the first item and not the last one. *)
Lemma C5_counterexample :
  exists this,
    constructor ["A"; "B"] [lit 1; lit 2] = Return this /\
    num_le (_lastRangeEnd this) (lit 3) = true /\
    _findCorrespondingRangeIndex this (lit 3) = 0 /\
    _findCorrespondingRangeIndex this (lit 3)
      <> Z.of_nat (length (_items this)) - 1 /\
    array_get (_items this) (_findCorrespondingRangeIndex this (lit 3))
      = Some "A" /\
    last (_items this) = Some "B".
Proof.
  eexists. split; [exact example_sampler|]. by repeat split.
Qed.

(** C6. For a sampler returned by the constructor over [n] items and a
    drawn value [u] in [[0, 1)], [sample] returns [items[i]] for an index
    [i] with [0 <= i <= n - 1]. *)
Theorem C6_sample_returns_an_item (T : Type) (items : list T)
    (respectiveWeights : list number) (this : WeightedRandomItemSampler T)
    (u : number) :
  constructor items respectiveWeights = Return this ->
  num_le zero u = true -> num_lt u one = true ->
  exists (i : nat) (item : T),
    (i < length items)%nat /\
    items !! i = Some item /\
    fst (sample u this) = Some item.
Proof.
  intros Hnew _ _.
  pose proof (table_length _ _ _ Hnew) as Hlen.
  pose proof (items_nonempty _ _ _ Hnew) as Hpos.
  pose proof (search_in_bounds this (num_mul u (_lastRangeEnd this)))
    as Hidx.
  rewrite Hlen in Hidx. specialize (Hidx ltac:(lia)).
  unfold sample. cbn. rewrite (items_kept _ _ _ Hnew).
  destruct (array_get_in_bounds items _ Hidx) as [item Hitem].
  pose proof Hitem as [_ Hlookup]%array_get_Some.
  eexists _, item. split; [|split; [exact Hlookup|exact Hitem]]. lia.
Qed.

Lemma C6_sample_returns_an_item_witness :
  exists (i : nat) (item : string),
    (i < 2)%nat /\ ["A"; "B"] !! i = Some item /\
    fst (sample (lit 0.5)
           {| _items := ["A"; "B"]; _ascRangeEnds := [lit 1; lit 3];
              _lastRangeEnd := lit 3 |}) = Some item.
Proof.
  apply (C6_sample_returns_an_item string ["A"; "B"] [lit 1; lit 2] _
           (lit 0.5) example_sampler); reflexivity.
Defined.

(** C7. Calls of [sample] leave the sampler as the constructor made it:
    after any sequence of calls the items, the table and the total are
    unchanged. *)
Theorem C7_sample_keeps_state (T : Type) (items : list T)
    (respectiveWeights : list number) (this : WeightedRandomItemSampler T)
    (randoms : list number) :
  constructor items respectiveWeights = Return this ->
  snd (sample_many randoms this) = this /\
  _items (snd (sample_many randoms this)) = items /\
  _ascRangeEnds (snd (sample_many randoms this)) = _ascRangeEnds this /\
  _lastRangeEnd (snd (sample_many randoms this)) = _lastRangeEnd this /\
  length (fst (sample_many randoms this)) = length randoms.
Proof.
  intros Hnew.
  assert (forall s : WeightedRandomItemSampler T,
            snd (sample_many randoms s) = s /\
            length (fst (sample_many randoms s)) = length randoms) as Hsame.
  { induction randoms as [|random rest IH]; intros s; [done|].
    cbn. destruct (IH s) as [Hs Hl].
    destruct (sample_many rest s) as [others s']. cbn in *.
    by rewrite Hs, Hl. }
  destruct (Hsame this) as [-> Hl].
  by rewrite (items_kept _ _ _ Hnew).
Qed.

Lemma C7_sample_keeps_state_witness :
  snd (sample_many [lit 0.1; lit 0.5; lit 0.9]
         {| _items := ["A"; "B"]; _ascRangeEnds := [lit 1; lit 3];
            _lastRangeEnd := lit 3 |})
  = {| _items := ["A"; "B"]; _ascRangeEnds := [lit 1; lit 3];
       _lastRangeEnd := lit 3 |}.
Proof.
  apply (C7_sample_keeps_state string ["A"; "B"] [lit 1; lit 2] _
           [lit 0.1; lit 0.5; lit 0.9] example_sampler).
Defined.

(** C8. The table and the total are determined by the weights: two
    samplers that the constructor returns for the same weights (for the
    same items, or for any other items) have the same table, cell for
    cell, namely the cumulative sums [weight[0] + ... + weight[i]] in the
    order of the weights, and the same total. *)
Theorem C8_construction_is_deterministic (T : Type) (items1 items2 : list T)
    (weights1 weights2 : list number)
    (this1 this2 : WeightedRandomItemSampler T) :
  weights1 = weights2 ->
  constructor items1 weights1 = Return this1 ->
  constructor items2 weights2 = Return this2 ->
  _ascRangeEnds this1 = _ascRangeEnds this2 /\
  length (_ascRangeEnds this1) = length weights1 /\
  (forall i : nat, (i < length weights1)%nat ->
     _ascRangeEnds this1 !! i = Some (weights_sum weights1 i) /\
     _ascRangeEnds this2 !! i = Some (weights_sum weights1 i)) /\
  _lastRangeEnd this1 = _lastRangeEnd this2.
Proof.
  intros <- Hnew1 Hnew2.
  destruct (constructor_Return _ _ _ Hnew1) as (_ & _ & _ & _ & -> & ->).
  destruct (constructor_Return _ _ _ Hnew2) as (_ & _ & _ & _ & -> & ->).
  split_and!; try done.
  - apply running_sums_length.
  - intros i Hi. rewrite running_sums_lookup by done.
    by rewrite fold_left_weights_sum.
Qed.

Lemma C8_construction_is_deterministic_witness :
  exists this1 this2,
    constructor ["A"; "B"] [lit 1; lit 2] = Return this1 /\
    constructor ["B"; "A"] [lit 1; lit 2] = Return this2 /\
    _ascRangeEnds this1 = _ascRangeEnds this2 /\
    _lastRangeEnd this1 = _lastRangeEnd this2.
Proof.
  eexists _, _. split; [exact example_sampler|].
  split; [reflexivity|].
  destruct (C8_construction_is_deterministic string ["A"; "B"] ["B"; "A"]
              [lit 1; lit 2] [lit 1; lit 2] _ _ eq_refl
              example_sampler eq_refl) as (Htable & _ & _ & Htotal).
  by split.
Defined.

(** C9. The loop of [_findCorrespondingRangeIndex] terminates for every
    sampler and every point, NaN and the infinities included: each
    iteration makes [right - left] strictly smaller, and the search is the
    result of at most [n] iterations of the body, after which the loop
    condition is false. *)
Theorem C9_search_terminates (T : Type) (this : WeightedRandomItemSampler T)
    (p : number) :
  (forall st : SearchState,
     loop_cond st = true ->
     width (loop_body (_ascRangeEnds this) p st) < width st) /\
  exists k : nat,
    (k <= length (_ascRangeEnds this))%nat /\
    _findCorrespondingRangeIndex this p =
      rangeIndex (iterate (_ascRangeEnds this) p k
                    (init_state (_ascRangeEnds this))) /\
    loop_cond (iterate (_ascRangeEnds this) p k
                 (init_state (_ascRangeEnds this))) = false /\
    forall j : nat, (j < k)%nat ->
      loop_cond (iterate (_ascRangeEnds this) p j
                   (init_state (_ascRangeEnds this))) = true.
Proof.
  split; [apply body_width|].
  destruct (while_loop_iterate (_ascRangeEnds this) p
              (init_state (_ascRangeEnds this)))
    as (k & Hk & Heq & Hend & Hbefore).
  exists k. split_and!; try done.
  - unfold fuel_of, width, init_state in Hk. cbn in Hk. lia.
  - unfold _findCorrespondingRangeIndex. by rewrite Heq.
Qed.

Lemma C9_search_terminates_witness :
  exists k : nat,
    (k <= 2)%nat /\
    loop_cond (iterate [lit 1; lit 3] NaN k (init_state [lit 1; lit 3]))
    = false.
Proof.
  destruct (C9_search_terminates string
              {| _items := ["A"; "B"]; _ascRangeEnds := [lit 1; lit 3];
                 _lastRangeEnd := lit 3 |} NaN)
    as (_ & k & Hk & _ & Hend & _).
  by exists k.
Defined.

(** C10. For a sampler returned by the constructor, the search returns
    its initial candidate 0 whenever the point is below no boundary; so it
    does for every point that is at least the last boundary, and also for
    every point below the first boundary, negative points included. *)
Theorem C10_search_returns_zero (T : Type) (items : list T)
    (respectiveWeights : list number) (this : WeightedRandomItemSampler T)
    (p : number) :
  constructor items respectiveWeights = Return this ->
  ((forall i, below (_ascRangeEnds this) p i = false) ->
   _findCorrespondingRangeIndex this p = 0) /\
  (forall b,
     array_get (_ascRangeEnds this) (Z.of_nat (length items) - 1) = Some b ->
     num_le b p = true ->
     _findCorrespondingRangeIndex this p = 0) /\
  (forall b,
     array_get (_ascRangeEnds this) 0 = Some b ->
     num_lt p b = true ->
     _findCorrespondingRangeIndex this p = 0) /\
  (_findCorrespondingRangeIndex this p = 0 ->
   exists first, items !! 0%nat = Some first /\
     array_get (_items this) (_findCorrespondingRangeIndex this p)
     = Some first).
Proof.
  intros Hnew. split_and!.
  - apply search_keeps_candidate.
  - intros b Hb Hbp. rewrite (table_last _ _ _ Hnew) in Hb.
    injection Hb as <-.
    apply search_keeps_candidate. intros i.
    by apply (below_none items respectiveWeights this Hnew).
  - intros b Hb Hpb. apply search_antitone. intros i j.
    by apply (below_antitone items respectiveWeights this Hnew p b).
  - intros ->. rewrite (items_kept _ _ _ Hnew).
    pose proof (items_nonempty _ _ _ Hnew) as Hpos.
    destruct items as [|first rest]; [cbn in Hpos; lia|]. by exists first.
Qed.

Lemma C10_search_returns_zero_witness :
  exists this,
    constructor ["A"; "B"] [lit 1; lit 2] = Return this /\
    _findCorrespondingRangeIndex this (lit 7) = 0 /\
    _findCorrespondingRangeIndex this (lit (-1)) = 0.
Proof.
  eexists. split; [exact example_sampler|].
  destruct (C10_search_returns_zero string ["A"; "B"] [lit 1; lit 2] _
              (lit 7) example_sampler) as (_ & Hhigh & _).
  destruct (C10_search_returns_zero string ["A"; "B"] [lit 1; lit 2] _
              (lit (-1)) example_sampler) as (_ & _ & Hlow & _).
  split.
  - by apply (Hhigh (lit 3)).
  - by apply (Hlow (lit 1)).
Defined.

(** * Further properties of the code *)

(** ** Sums and products that are not finite *)

Module ScalingFacts.

(** A product with NaN or an infinity is never finite. *)
Lemma num_mul_not_finite (u total : number) :
  is_finite total = false -> is_finite (num_mul u total) = false.
Proof.
  intros Hfin. destruct u, total; cbn in *; try done;
    unfold scaled_inf; by destruct (_ ?= _)%Qc.
Qed.

(** Adding an accepted weight to a sum that is NaN or [Infinity], or
    adding a weight that is NaN or [Infinity], gives NaN or [Infinity]. *)
Lemma num_add_not_finite (s w : number) :
  num_le w zero = false -> s <> NegInf ->
  is_finite s = false \/ is_finite w = false ->
  is_finite (num_add s w) = false /\ num_add s w <> NegInf.
Proof.
  intros Hw Hs Hfin. destruct s, w; cbn in *; try done; by destruct Hfin.
Qed.

Lemma num_add_not_neg_inf (s w : number) :
  num_le w zero = false -> s <> NegInf -> num_add s w <> NegInf.
Proof. intros Hw Hs. by destruct s, w. Qed.

End ScalingFacts.

(** ** The search loop: cost and array reads *)

Module CostFacts.

Section Cost.
Variable ascRangeEnds : list number.
Variable pointInRange : number.

(** An iteration at least halves the number of indices under
    consideration. *)
Lemma body_halves (st : SearchState) :
  loop_cond st = true ->
  width (loop_body ascRangeEnds pointInRange st) + 1 <= (width st + 1) / 2.
Proof.
  intros Hc. pose proof (mid_bounds st Hc) as Hmid.
  unfold width, loop_body.
  destruct (below _ _ _); cbn; Z.to_euclidean_division_equations; lia.
Qed.

Lemma iterate_S (k : nat) (st : SearchState) :
  iterate ascRangeEnds pointInRange (S k) st =
  loop_body ascRangeEnds pointInRange (iterate ascRangeEnds pointInRange k st).
Proof. reflexivity. Qed.

(** After [j] executed iterations at most [size / 2^j] indices are left. *)
Lemma iterate_size (j : nat) (st : SearchState) :
  (forall i : nat, (i < j)%nat ->
     loop_cond (iterate ascRangeEnds pointInRange i st) = true) ->
  (width (iterate ascRangeEnds pointInRange j st) + 1) * 2 ^ Z.of_nat j
  <= width st + 1.
Proof.
  induction j as [|j IH]; intros Hrun.
  - cbn. lia.
  - rewrite iterate_S.
    pose proof (body_halves _ (Hrun j ltac:(lia))) as Hhalf.
    specialize (IH ltac:(intros i Hi; apply Hrun; lia)).
    rewrite Nat2Z.inj_succ, Z.pow_succ_r by lia.
    assert (0 < 2 ^ Z.of_nat j) as Hpow by (apply Z.pow_pos_nonneg; lia).
    set (a := width (iterate ascRangeEnds pointInRange j st) + 1) in *.
    set (b := width (loop_body ascRangeEnds pointInRange
                       (iterate ascRangeEnds pointInRange j st)) + 1) in *.
    assert (b * 2 <= a) by (Z.to_euclidean_division_equations; lia).
    nia.
Qed.

(** Executed iterations keep [left] and [right] inside the array. *)
Lemma iterate_in_bounds (j : nat) :
  (forall i : nat, (i < j)%nat ->
     loop_cond (iterate ascRangeEnds pointInRange i
                  (init_state ascRangeEnds)) = true) ->
  0 <= left (iterate ascRangeEnds pointInRange j (init_state ascRangeEnds)) /\
  right (iterate ascRangeEnds pointInRange j (init_state ascRangeEnds))
    < Z.of_nat (length ascRangeEnds).
Proof.
  induction j as [|j IH]; intros Hrun.
  - cbn. lia.
  - rewrite iterate_S.
    pose proof (mid_bounds _ (Hrun j ltac:(lia))) as Hmid.
    specialize (IH ltac:(intros i Hi; apply Hrun; lia)).
    unfold loop_body. destruct (below _ _ _); cbn; lia.
Qed.

End Cost.

End CostFacts.

Import ScalingFacts CostFacts.

(** X1. Whatever value the random source returns (a value outside of
    [[0, 1)], NaN and the infinities included), [sample] on a sampler
    returned by the constructor returns one of the items, never
    [undefined]. *)
Theorem X1_sample_never_undefined (T : Type) (items : list T)
    (respectiveWeights : list number) (this : WeightedRandomItemSampler T)
    (random : number) :
  constructor items respectiveWeights = Return this ->
  exists (i : nat) (item : T),
    (i < length items)%nat /\
    items !! i = Some item /\
    fst (sample random this) = Some item.
Proof.
  intros Hnew.
  pose proof (table_length _ _ _ Hnew) as Hlen.
  pose proof (items_nonempty _ _ _ Hnew) as Hpos.
  pose proof (search_in_bounds this (num_mul random (_lastRangeEnd this)))
    as Hidx.
  rewrite Hlen in Hidx. specialize (Hidx ltac:(lia)).
  unfold sample. cbn. rewrite (items_kept _ _ _ Hnew).
  destruct (array_get_in_bounds items _ Hidx) as [item Hitem].
  pose proof Hitem as [_ Hlookup]%array_get_Some.
  eexists _, item. split; [|split; [exact Hlookup|exact Hitem]]. lia.
Qed.

Lemma X1_sample_never_undefined_witness :
  exists (i : nat) (item : string),
    (i < 2)%nat /\ ["A"; "B"] !! i = Some item /\
    fst (sample NaN
           {| _items := ["A"; "B"]; _ascRangeEnds := [lit 1; lit 3];
              _lastRangeEnd := lit 3 |}) = Some item.
Proof.
  apply (X1_sample_never_undefined string ["A"; "B"] [lit 1; lit 2] _
           NaN example_sampler).
Defined.

(** X2. The search loop runs at most [floor(log2 n) + 1] times on a table
    of [n >= 1] cells, whatever the cells and the point are. *)
Theorem X2_search_is_logarithmic (T : Type)
    (this : WeightedRandomItemSampler T) (p : number) :
  (0 < length (_ascRangeEnds this))%nat ->
  exists k : nat,
    (k <= Z.to_nat (Z.log2 (Z.of_nat (length (_ascRangeEnds this)))) + 1)%nat /\
    _findCorrespondingRangeIndex this p =
      rangeIndex (iterate (_ascRangeEnds this) p k
                    (init_state (_ascRangeEnds this))) /\
    loop_cond (iterate (_ascRangeEnds this) p k
                 (init_state (_ascRangeEnds this))) = false /\
    forall j : nat, (j < k)%nat ->
      loop_cond (iterate (_ascRangeEnds this) p j
                   (init_state (_ascRangeEnds this))) = true.
Proof.
  intros Hn.
  destruct (while_loop_iterate (_ascRangeEnds this) p
              (init_state (_ascRangeEnds this)))
    as (k & _ & Heq & Hend & Hbefore).
  exists k. split_and!; try done.
  - destruct k as [|k]; [lia|].
    pose proof (iterate_size (_ascRangeEnds this) p k
                  (init_state (_ascRangeEnds this))
                  ltac:(intros i Hi; apply Hbefore; lia)) as Hsize.
    pose proof (Hbefore k ltac:(lia)) as Hc.
    unfold loop_cond in Hc. apply Z.leb_le in Hc.
    assert (2 ^ Z.of_nat k <= Z.of_nat (length (_ascRangeEnds this)))
      as Hpow.
    { assert (0 < 2 ^ Z.of_nat k) by (apply Z.pow_pos_nonneg; lia).
      assert (width (init_state (_ascRangeEnds this)) + 1
              = Z.of_nat (length (_ascRangeEnds this))) as Hinit.
      { unfold width, init_state. cbn. lia. }
      rewrite Hinit in Hsize. unfold width in Hsize. nia. }
    apply Z.log2_le_pow2 in Hpow; lia.
  - unfold _findCorrespondingRangeIndex. by rewrite Heq.
Qed.

Lemma X2_search_is_logarithmic_witness :
  exists k : nat,
    (k <= 2)%nat /\
    loop_cond (iterate [lit 1; lit 3] (lit 2) k (init_state [lit 1; lit 3]))
    = false.
Proof.
  destruct (X2_search_is_logarithmic string
              {| _items := ["A"; "B"]; _ascRangeEnds := [lit 1; lit 3];
                 _lastRangeEnd := lit 3 |} (lit 2))
    as (k & Hk & _ & Hend & _).
  - cbn. lia.
  - exists k. split; [exact Hk|exact Hend].
Defined.

(** X3. Every cell that the search reads lies inside the table: in each
    executed iteration the index [mid] satisfies [0 <= mid < n], so the
    comparison never meets [undefined]. *)
Theorem X3_search_reads_in_bounds (T : Type)
    (this : WeightedRandomItemSampler T) (p : number) (j : nat) :
  (forall i : nat, (i <= j)%nat ->
     loop_cond (iterate (_ascRangeEnds this) p i
                  (init_state (_ascRangeEnds this))) = true) ->
  0 <= mid_index (iterate (_ascRangeEnds this) p j
                    (init_state (_ascRangeEnds this)))
    < Z.of_nat (length (_ascRangeEnds this)) /\
  exists cell,
    array_get (_ascRangeEnds this)
      (mid_index (iterate (_ascRangeEnds this) p j
                    (init_state (_ascRangeEnds this)))) = Some cell.
Proof.
  intros Hrun.
  pose proof (iterate_in_bounds (_ascRangeEnds this) p j
                ltac:(intros i Hi; apply Hrun; lia)) as [Hl Hr].
  pose proof (mid_bounds _ (Hrun j ltac:(lia))) as Hmid.
  assert (0 <= mid_index (iterate (_ascRangeEnds this) p j
                            (init_state (_ascRangeEnds this)))
            < Z.of_nat (length (_ascRangeEnds this))) as Hin.
  { unfold mid_index. lia. }
  split; [done|]. by apply array_get_in_bounds.
Qed.

Lemma X3_search_reads_in_bounds_witness :
  exists cell,
    array_get [lit 1; lit 3]
      (mid_index (iterate [lit 1; lit 3] (lit 2) 1
                    (init_state [lit 1; lit 3]))) = Some cell.
Proof.
  apply (X3_search_reads_in_bounds string
           {| _items := ["A"; "B"]; _ascRangeEnds := [lit 1; lit 3];
              _lastRangeEnd := lit 3 |} (lit 2) 1).
  intros [|[|i]] Hi; [reflexivity|reflexivity|lia].
Defined.

(** ** Cells of a constructed sampler *)

Module RangeFacts.

Section Ranges.
Context {T : Type}.
Variable items : list T.
Variable respectiveWeights : list number.
Variable this : WeightedRandomItemSampler T.
Hypothesis Hnew : constructor items respectiveWeights = Return this.

(** Cell [i] of the table is the sum of the weights up to [i]. *)
Lemma table_cell (i : nat) :
  (i < length items)%nat ->
  _ascRangeEnds this !! i = Some (weights_sum respectiveWeights i).
Proof.
  intros Hi.
  destruct (constructor_Return _ _ _ Hnew) as (_ & Hlen & _ & _ & -> & _).
  rewrite running_sums_lookup by lia.
  f_equal. apply fold_left_weights_sum. lia.
Qed.

End Ranges.

End RangeFacts.

Import RangeFacts.

(** X6. The index found is monotone in the point: for two points
    [p1 <= p2 < total] the search returns for [p1] an index that is at most
    the index it returns for [p2]. *)
Theorem X6_search_is_monotone (T : Type) (items : list T)
    (respectiveWeights : list number) (this : WeightedRandomItemSampler T)
    (p1 p2 : number) :
  constructor items respectiveWeights = Return this ->
  num_le p1 p2 = true ->
  num_lt p2 (_lastRangeEnd this) = true ->
  _findCorrespondingRangeIndex this p1 <= _findCorrespondingRangeIndex this p2.
Proof.
  intros Hnew H12 H2t.
  assert (_lastRangeEnd this <> NaN) as Hnan
    by by apply num_lt_not_nan in H2t as [_ ?].
  pose proof (table_length _ _ _ Hnew) as Hlen.
  pose proof (items_nonempty _ _ _ Hnew) as Hpos.
  pose proof (table_last _ _ _ Hnew) as Hlast.
  assert (forall p, num_lt p (_lastRangeEnd this) = true ->
            0 <= _findCorrespondingRangeIndex this p
              < Z.of_nat (length (_ascRangeEnds this)) /\
            below (_ascRangeEnds this) p
              (_findCorrespondingRangeIndex this p) = true /\
            forall j, 0 <= j < _findCorrespondingRangeIndex this p ->
                      below (_ascRangeEnds this) p j = false) as Hsearch.
  { intros p Hp. apply search_leftmost.
    - lia.
    - intros a b. by apply (below_monotone items respectiveWeights this Hnew).
    - rewrite Hlen. apply below_true. by exists (_lastRangeEnd this). }
  destruct (Hsearch p2 H2t) as (Hi2 & (x & Hx & Hp2x)%below_true & _).
  destruct (Hsearch p1 (num_le_lt_trans _ _ _ H12 H2t)) as (Hi1 & _ & Hleft1).
  destruct (Z.le_gt_cases (_findCorrespondingRangeIndex this p1)
              (_findCorrespondingRangeIndex this p2)) as [|Hgt]; [done|].
  exfalso.
  assert (below (_ascRangeEnds this) p1
            (_findCorrespondingRangeIndex this p2) = true) as Hbelow.
  { apply below_true. exists x. split; [done|].
    by apply num_le_lt_trans with p2. }
  rewrite Hleft1 in Hbelow; [done|lia].
Qed.

Lemma X6_search_is_monotone_witness :
  _findCorrespondingRangeIndex
    {| _items := ["A"; "B"]; _ascRangeEnds := [lit 1; lit 3];
       _lastRangeEnd := lit 3 |} (lit 0.5)
  <= _findCorrespondingRangeIndex
       {| _items := ["A"; "B"]; _ascRangeEnds := [lit 1; lit 3];
          _lastRangeEnd := lit 3 |} (lit 2.5).
Proof.
  apply (X6_search_is_monotone string ["A"; "B"] [lit 1; lit 2] _
           (lit 0.5) (lit 2.5) example_sampler); reflexivity.
Defined.

(** ** Tables with NaN or infinite cells *)

Module NonFiniteFacts.

(** Once the running sum is NaN or [Infinity], or once such a weight is
    added, the sum stays NaN or [Infinity]. *)
Lemma fold_not_finite (ws : list number) (s : number) :
  Forall (fun w => num_le w zero = false) ws ->
  s <> NegInf ->
  is_finite s = false \/ (exists w, w ∈ ws /\ is_finite w = false) ->
  is_finite (fold_left num_add ws s) = false.
Proof.
  revert s. induction ws as [|w ws IH]; intros s Hws Hs Hcase; cbn.
  - destruct Hcase as [|(w & Hin & _)]; [done|]. by apply elem_of_nil in Hin.
  - apply Forall_cons in Hws as [Hw Hws].
    apply IH; [done|by apply num_add_not_neg_inf|].
    destruct Hcase as [Hfin|(v & Hin & Hv)].
    + left. by apply num_add_not_finite; [| |left].
    + apply elem_of_cons in Hin as [->|Hin].
      * left. by apply num_add_not_finite; [| |right].
      * right. by exists v.
Qed.

Lemma num_accepted_positive (w : number) :
  num_le w zero = false -> w <> NaN -> num_lt zero w = true.
Proof. intros Hw Hnan. num_cases; done. Qed.

Section Constructed.
Context {T : Type}.
Variable items : list T.
Variable respectiveWeights : list number.
Variable this : WeightedRandomItemSampler T.
Hypothesis Hnew : constructor items respectiveWeights = Return this.

(** A cell that is not NaN is positive. *)
Lemma cell_positive (i : nat) (x : number) :
  _ascRangeEnds this !! i = Some x -> x <> NaN -> num_lt zero x = true.
Proof.
  intros Hx Hnan.
  destruct (constructor_Return _ _ _ Hnew) as (_ & _ & Hws & _ & Hends & _).
  rewrite Hends in Hx.
  destruct respectiveWeights as [|w ws]; [done|].
  pose proof Hws as [Hw _]%Forall_cons.
  assert (num_le (num_add zero w) x = true) as Hle.
  { apply (running_sums_ascending zero (w :: ws) 0 i);
      [by right|done|lia|done|done|done]. }
  rewrite num_add_zero_l in Hle.
  apply num_lt_le_trans with w; [|done].
  apply num_accepted_positive; [done|].
  by apply num_le_not_nan in Hle as [? _].
Qed.

(** For a point that is NaN or infinite the search returns 0. *)
Lemma search_not_finite (p : number) :
  is_finite p = false -> _findCorrespondingRangeIndex this p = 0.
Proof.
  intros Hp. destruct p as [| |q|]; [| |done|].
  - apply search_keeps_candidate. intros i. unfold below.
    by destruct (ToNumber _).
  - apply search_antitone. intros i j Hij (y & Hy & Hlt)%below_true.
    pose proof Hy as [Hj _]%array_get_Some.
    destruct (array_get_in_bounds (_ascRangeEnds this) i) as [x Hx]; [lia|].
    apply below_true. exists x. split; [done|].
    assert (y <> NaN) as Hynan by by destruct y.
    pose proof (table_ascending _ _ _ Hnew i j x y Hij Hx Hy Hynan) as Hxy.
    assert (x <> NaN) as Hxnan by by apply num_le_not_nan in Hxy as [? _].
    apply array_get_Some in Hx as [_ Hx].
    pose proof (cell_positive _ _ Hx Hxnan) as Hpos.
    by destruct x.
  - apply search_keeps_candidate. intros i. unfold below.
    by destruct (ToNumber _).
Qed.

End Constructed.

End NonFiniteFacts.

Import NonFiniteFacts.

(** X7. A weight that is NaN or [Infinity] is accepted by the constructor,
    and it makes the sampler degenerate: the total is NaN or [Infinity],
    and [sample] returns the first item for every value of the random
    source. *)
Theorem X7_non_finite_weight_degenerates (T : Type) (items : list T)
    (respectiveWeights : list number) (this : WeightedRandomItemSampler T) :
  constructor items respectiveWeights = Return this ->
  (exists w, w ∈ respectiveWeights /\ is_finite w = false) ->
  is_finite (_lastRangeEnd this) = false /\
  forall random : number,
    _findCorrespondingRangeIndex this
      (num_mul random (_lastRangeEnd this)) = 0 /\
    exists first, items !! 0%nat = Some first /\
                  fst (sample random this) = Some first.
Proof.
  intros Hnew Hbad.
  destruct (constructor_Return _ _ _ Hnew) as (_ & _ & Hws & _ & _ & Htotal).
  assert (is_finite (_lastRangeEnd this) = false) as Hfin.
  { rewrite Htotal. apply fold_not_finite; [done|done|by right]. }
  split; [done|]. intros random.
  assert (_findCorrespondingRangeIndex this
            (num_mul random (_lastRangeEnd this)) = 0) as Hidx.
  { apply (search_not_finite _ _ _ Hnew). by apply num_mul_not_finite. }
  split; [done|].
  pose proof (items_nonempty _ _ _ Hnew) as Hpos.
  destruct items as [|first rest] eqn:Hitems; [cbn in Hpos; lia|].
  exists first. split; [done|].
  unfold sample. cbn [fst]. by rewrite Hidx, (items_kept _ _ _ Hnew).
Qed.

Lemma X7_non_finite_weight_degenerates_witness :
  exists this,
    constructor ["A"; "B"; "C"] [lit 1; lit 2; PosInf] = Return this /\
    is_finite (_lastRangeEnd this) = false /\
    fst (sample (lit 0.9) this) = Some "A".
Proof.
  eexists. split; [reflexivity|].
  destruct (X7_non_finite_weight_degenerates string ["A"; "B"; "C"]
              [lit 1; lit 2; PosInf] _ eq_refl) as [Hfin Hall].
  - exists PosInf. split; [|done]. apply list_elem_of_lookup. by exists 2%nat.
  - split; [exact Hfin|].
    destruct (Hall (lit 0.9)) as (_ & first & [= <-] & Hitem). exact Hitem.
Defined.

(** X8. For every input that the constructor accepts, weights NaN and
    [Infinity] included: the table has one cell per item, cell [i] is
    [weight[0] + ... + weight[i]], the total is the last cell, and the
    table never descends: for [i <= j], cell [j] is NaN, or cell [i] is
    positive and at most cell [j]. *)
Theorem X8_accepted_table (T : Type) (items : list T)
    (respectiveWeights : list number) (this : WeightedRandomItemSampler T) :
  constructor items respectiveWeights = Return this ->
  length (_ascRangeEnds this) = length items /\
  (forall i : nat, (i < length items)%nat ->
     _ascRangeEnds this !! i = Some (weights_sum respectiveWeights i)) /\
  _ascRangeEnds this !! (length items - 1)%nat = Some (_lastRangeEnd this) /\
  forall (i j : nat) (x y : number),
    (i <= j)%nat ->
    _ascRangeEnds this !! i = Some x -> _ascRangeEnds this !! j = Some y ->
    y = NaN \/ (num_lt zero x = true /\ num_le x y = true).
Proof.
  intros Hnew.
  pose proof (items_nonempty _ _ _ Hnew) as Hpos.
  split_and!.
  - apply (table_length _ _ _ Hnew).
  - apply (table_cell _ _ _ Hnew).
  - pose proof (table_last _ _ _ Hnew) as [_ Hlast]%array_get_Some.
    by replace (Z.to_nat (Z.of_nat (length items) - 1))
      with (length items - 1)%nat in Hlast by lia.
  - intros i j x y Hij Hx Hy.
    destruct (nan_or_not y) as [|Hnan]; [by left|]. right.
    destruct (constructor_Return _ _ _ Hnew) as (_ & _ & Hws & _ & Hends & _).
    assert (num_le x y = true) as Hxy.
    { rewrite Hends in Hx, Hy.
      by apply (running_sums_ascending zero respectiveWeights i j);
        [right| | | | |]. }
    split; [|done].
    apply (cell_positive _ _ _ Hnew i x Hx).
    by apply num_le_not_nan in Hxy as [? _].
Qed.

Lemma X8_accepted_table_witness :
  exists this,
    constructor ["A"; "B"; "C"] [lit 1; PosInf; NaN] = Return this /\
    length (_ascRangeEnds this) = 3%nat /\
    _ascRangeEnds this !! 2%nat = Some (_lastRangeEnd this).
Proof.
  eexists. split; [reflexivity|].
  destruct (X8_accepted_table string ["A"; "B"; "C"] [lit 1; PosInf; NaN]
              _ eq_refl) as (Hlen & _ & Hlast & _).
  split; [exact Hlen|exact Hlast].
Defined.

(** ** The later revision of the constructor *)

Module PreallocFacts.

(** Writing the next cell of a table whose tail is still the initial
    filling. *)
Lemma array_set_next (done : list number) (k : nat) (x : number) :
  Prealloc.array_set (done ++ replicate (S k) zero) (length done) x
  = (done ++ [x]) ++ replicate k zero.
Proof.
  unfold Prealloc.array_set.
  destruct (Nat.ltb_spec (length done) (length (done ++ replicate (S k) zero)))
    as [_|Hge].
  - replace (length done) with (length done + 0)%nat at 1 by lia.
    rewrite insert_app_r. cbn. by rewrite <- app_assoc.
  - rewrite length_app, length_replicate in Hge. lia.
Qed.

(** The two loops agree when the preallocated table holds the cells
    written so far followed by one initial cell per remaining weight. *)
Lemma weights_loop_agree (ws done : list number) (s : number) :
  Prealloc.weights_loop ws (done ++ replicate (length ws) zero)
    (length done) s
  = weights_loop ws done s.
Proof.
  revert done s. induction ws as [|w ws IH]; intros done s.
  - cbn. by rewrite app_nil_r.
  - cbn -[Prealloc.array_set replicate].
    destruct (num_le w zero); cbn -[Prealloc.array_set replicate]; [done|].
    rewrite array_set_next.
    replace (S (length done)) with (length (done ++ [num_add s w]))
      by (rewrite length_app; cbn; lia).
    apply IH.
Qed.

End PreallocFacts.

(** X9. The later revision of the constructor, which allocates the table
    at its final length, fills it with 0 and writes the cells by index,
    gives the same outcome as the constructor that pushes the cells: the
    same error or the same sampler, for every input. *)
Theorem X9_prealloc_constructor_agrees (T : Type) (items : list T)
    (respectiveWeights : list number) :
  Prealloc.constructor items respectiveWeights
  = constructor items respectiveWeights.
Proof.
  unfold Prealloc.constructor, constructor.
  destruct (length items =? 0)%nat; cbn; [done|].
  destruct (Nat.eqb_spec (length items) (length respectiveWeights))
    as [Hlen|]; cbn; [|done].
  rewrite Hlen.
  pose proof (PreallocFacts.weights_loop_agree respectiveWeights [] zero)
    as Hagree.
  cbn [app length] in Hagree. by rewrite Hagree.
Qed.

(** X10. A one-item sampler returns its item on every call, whatever the
    weight accepted for it and whatever the random source returns. *)
Theorem X10_single_item (T : Type) (item : T) (weight : number)
    (this : WeightedRandomItemSampler T) (random : number) :
  constructor [item] [weight] = Return this ->
  fst (sample random this) = Some item.
Proof.
  intros Hnew.
  pose proof (table_length _ _ _ Hnew) as Hlen.
  pose proof (search_in_bounds this (num_mul random (_lastRangeEnd this)))
    as Hidx.
  rewrite Hlen in Hidx. cbn in Hidx. specialize (Hidx ltac:(lia)).
  unfold sample. cbn [fst].
  replace (_findCorrespondingRangeIndex this
             (num_mul random (_lastRangeEnd this))) with 0 by lia.
  by rewrite (items_kept _ _ _ Hnew).
Qed.

Lemma X10_single_item_witness :
  fst (sample (lit 0.7)
         {| _items := ["only"]; _ascRangeEnds := [lit 5];
            _lastRangeEnd := lit 5 |}) = Some "only".
Proof.
  apply (X10_single_item string "only" (lit 5) _ (lit 0.7)). reflexivity.
Defined.

(** X11. The trainer of the README passes one weight per sample, so its
    constructor never fails with the length-mismatch error: it fails
    exactly when there is no sample (zero-items error) or a sample has an
    importance [<= 0]; and a trainer that was built returns one of the
    samples on every call of [selectTrainingSample], and stays as it is. *)
Theorem X11_model_trainer (D : Type)
    (samples : list (ModelTrainerExample.TrainingSample D)) :
  (forall a b, ModelTrainerExample.new_ModelTrainer samples
               <> Throw (LengthMismatchError a b)) /\
  (samples = [] ->
   ModelTrainerExample.new_ModelTrainer samples = Throw ZeroItemsError) /\
  ((exists e, ModelTrainerExample.new_ModelTrainer samples = Throw e) <->
   samples = [] \/
   exists s, s ∈ samples /\
     num_le (ModelTrainerExample.importance
               (ModelTrainerExample.metadata s)) zero = true) /\
  forall trainer random,
    ModelTrainerExample.new_ModelTrainer samples = Return trainer ->
    snd (ModelTrainerExample.selectTrainingSample random trainer) = trainer /\
    exists s, s ∈ samples /\
      fst (ModelTrainerExample.selectTrainingSample random trainer) = Some s.
Proof.
  set (weights := (fun s => ModelTrainerExample.importance
                              (ModelTrainerExample.metadata s)) <$> samples).
  assert (length samples = length weights) as Hlen
    by (unfold weights; by rewrite length_fmap).
  assert ((exists i w, first_refused weights = Some (i, w)) <->
          exists s, s ∈ samples /\
            num_le (ModelTrainerExample.importance
                      (ModelTrainerExample.metadata s)) zero = true)
    as Hrefused.
  { split.
    - intros (i & w & (Hi & Hw & _)%first_refused_Some).
      unfold weights in Hi. rewrite list_lookup_fmap in Hi.
      destruct (samples !! i) as [s|] eqn:Hs; [|done].
      injection Hi as <-. exists s. split; [|done].
      apply list_elem_of_lookup. by exists i.
    - intros (s & Hin & Hs).
      destruct (first_refused weights) as [[i w]|] eqn:Hfirst;
        [by exists i, w|].
      apply first_refused_None in Hfirst. rewrite Forall_forall in Hfirst.
      rewrite Hfirst in Hs; [done|].
      unfold weights. apply list_elem_of_fmap. by exists s. }
  unfold ModelTrainerExample.new_ModelTrainer. fold weights.
  rewrite constructor_spec.
  destruct (Nat.eqb_spec (length samples) 0) as [H0|H0].
  { apply length_zero_iff_nil in H0. cbn. split_and!; try done.
    split; [by left|by eexists]. }
  assert (samples <> []) as Hne by (intros ->; by cbn in H0).
  destruct (Nat.eqb_spec (length samples) (length weights)) as [_|]; [|done].
  cbn. destruct (first_refused weights) as [[i w]|] eqn:Hfirst; cbn.
  - split_and!; try done.
    split; [|by eexists].
    intros _. right. apply Hrefused. by exists i, w.
  - split_and!; try done.
    + split; [by intros [e ?]|].
      intros [?|(i & w & ?)%Hrefused]; done.
    + intros trainer random [= <-].
      unfold ModelTrainerExample.selectTrainingSample. cbn.
      split; [done|].
      set (idx := _findCorrespondingRangeIndex _ _).
      assert (0 <= idx < Z.of_nat (length samples)) as Hidx.
      { pose proof (search_in_bounds
          {| _items := samples; _ascRangeEnds := running_sums zero weights;
             _lastRangeEnd := fold_left num_add weights zero |}
          (num_mul random (fold_left num_add weights zero))) as Hb.
        cbn in Hb. rewrite running_sums_length, <- Hlen in Hb.
        apply Hb. lia. }
      destruct (array_get_in_bounds samples idx Hidx) as [s Hs].
      exists s. split; [|done].
      apply array_get_Some in Hs as [_ Hs].
      apply list_elem_of_lookup. by eexists.
Qed.

Lemma X11_model_trainer_witness :
  exists trainer s,
    ModelTrainerExample.new_ModelTrainer
      [ {| ModelTrainerExample.data := "easy";
           ModelTrainerExample.metadata :=
             {| ModelTrainerExample.importance := lit 1 |} |};
        {| ModelTrainerExample.data := "hard";
           ModelTrainerExample.metadata :=
             {| ModelTrainerExample.importance := lit 4 |} |} ]
    = Return trainer /\
    fst (ModelTrainerExample.selectTrainingSample (lit 0.5) trainer)
    = Some s.
Proof.
  eexists.
  destruct (X11_model_trainer string
    [ {| ModelTrainerExample.data := "easy";
         ModelTrainerExample.metadata :=
           {| ModelTrainerExample.importance := lit 1 |} |};
      {| ModelTrainerExample.data := "hard";
         ModelTrainerExample.metadata :=
           {| ModelTrainerExample.importance := lit 4 |} |} ])
    as (_ & _ & _ & Hcall).
  destruct (Hcall _ (lit 0.5) eq_refl) as (_ & s & _ & Hs).
  exists s. split; [reflexivity|exact Hs].
Defined.
